(** * Binary-tree placement engine of the MLM client manager

    A shallow embedding of [server/storage.ts] (class [MemStorage]), of the
    two client-creation routes of [server/routes.ts] and of the record types
    of [shared/schema.ts], followed by the properties of the placement
    engine: available slots, direct and spill-over placement, downline
    traversal.

    Conventions of the embedding.
    - [Map<string, User>] is an association list in insertion order, with
      [Map.prototype.set] replacing in place or appending.
    - A method of [MemStorage] is a computation of the monad [M]: it reads and
      writes the store and ends in a value, in a thrown [Error], or never
      (the recursion of [getClientDownline] on a cyclic store).
    - The results of [randomUUID()], [bcrypt.hash] and [new Date()] are taken
      as inputs (record [Effects]).
    - Every [await] after [bcrypt.hash] waits for a promise of the class's own
      [async] methods, so the rest of a method runs within one drain of the
      micro-task queue: methods are sequential units.
    - A route handler starts from the body its schema has parsed: a body the
      schema refuses is answered 400 before any of the code embedded here.
      A creating route reads the store (username, parent) before it calls
      the creating method, whose first step awaits [bcrypt.hash]: other
      requests can write in between. [postClients], [postClientsDownline]
      and [postCreateWithPayment] describe a request during which no other
      request writes; their two halves, before and after the hash, are the
      [_check] and [_finish] computations.
    - A call [f(...xs)] spreads at most [maxSpread] arguments, a bound of the
      engine; beyond it the call throws a [RangeError]. *)

From Stdlib Require Import List String Bool Arith Lia.
Import ListNotations.
Local Open Scope string_scope.
Local Open Scope list_scope.

(* ------------------------------------------------------------------ *)
(** ** JavaScript values used by the engine *)

(** Truthiness of a [string | null | undefined]: [null], [undefined] and the
    empty string are falsy. *)
Definition truthy (o : option string) : bool :=
  match o with
  | Some s => negb (s =? "")
  | None => false
  end.

(** [a || b] on nullable strings. *)
Definition js_or (a b : option string) : option string :=
  if truthy a then a else b.

(** [a || null]. *)
Definition or_null (a : option string) : option string := js_or a None.

(** [a === x] for a nullable string [a] and a string [x]. *)
Definition strict_eq (a : option string) (x : string) : bool :=
  match a with
  | Some y => y =? x
  | None => false
  end.

(** [Array.prototype.includes] on an array of nullable strings. *)
Definition includes (l : list (option string)) (x : string) : bool :=
  existsb (fun a => strict_eq a x) l.

(* ------------------------------------------------------------------ *)
(** ** shared/schema.ts *)

(** [z.enum(["left", "right"])]. *)
Inductive Position : Type := Left | Right.

Definition positionName (p : Position) : string :=
  match p with
  | Left => "left"
  | Right => "right"
  end.

Definition otherPosition (p : Position) : Position :=
  match p with
  | Left => Right
  | Right => Left
  end.

(** [z.enum(["Silver", "Gold", "Diamond"])]. *)
Inductive Package : Type := Silver | Gold | Diamond.

Definition packageName (p : Package) : string :=
  match p with
  | Silver => "Silver"
  | Gold => "Gold"
  | Diamond => "Diamond"
  end.

(** [typeof users.$inferSelect]: a row of the [users] table. *)
Record User : Type := mkUser {
  id : string;
  name : option string;
  username : string;
  password : string;
  email : option string;
  mobile : option string;
  role : string;
  package : option string;
  parentId : option string;
  position : option string;
  createdAt : nat
}.

(** [CreateClientRequest], the type inferred from [createClientSchema]. *)
Module Client.
Record t : Type := mk {
  name : string;
  username : string;
  password : string;
  mobile : string;
  email : string;
  package : Package;
  parentId : option string;
  position : option Position
}.
End Client.

(** [InsertUser], the type inferred from [insertUserSchema]. *)
Module Insert.
Record t : Type := mk {
  username : string;
  password : string;
  role : option string;
  package : option string;
  parentId : option string;
  position : option string
}.
End Insert.

(** What one call draws from outside the store: the identifier returned by
    [randomUUID()], the digest returned by [bcrypt.hash] and the time of
    [new Date()]. *)
Record Effects : Type := mkEffects {
  uuid : string;
  hashedPassword : string;
  now : nat
}.

(* ------------------------------------------------------------------ *)
(** ** [Map<string, V>] in insertion order *)

Module JsMap.
Section Ops.
Variable V : Type.

Definition t : Type := list (string * V).

Definition empty : t := [].

Fixpoint get (m : t) (k : string) : option V :=
  match m with
  | [] => None
  | (k', v) :: m' => if k' =? k then Some v else get m' k
  end.

(** [set] keeps the place of a key that is present and appends a new one. *)
Fixpoint set (k : string) (v : V) (m : t) : t :=
  match m with
  | [] => [(k, v)]
  | (k', v') :: m' =>
      if k' =? k then (k, v) :: m' else (k', v') :: set k v m'
  end.

Definition keys (m : t) : list string := map fst m.

Definition values (m : t) : list V := map snd m.
End Ops.

Arguments get {V} m k.
Arguments set {V} k v m.
Arguments keys {V} m.
Arguments values {V} m.
End JsMap.

(** The field [users] of [MemStorage]. *)
Definition Store : Type := JsMap.t User.

(* ------------------------------------------------------------------ *)
(** ** Computations over the store *)

Inductive Outcome (A : Type) : Type :=
| Ok (a : A)
| Throw (message : string)
| Diverge.

Arguments Ok {A} a.
Arguments Throw {A} message.
Arguments Diverge {A}.

Definition M (A : Type) : Type := Store -> Outcome A * Store.

Definition ret {A} (a : A) : M A := fun s => (Ok a, s).

Definition bind {A B} (c : M A) (k : A -> M B) : M B :=
  fun s =>
    match c s with
    | (Ok a, s') => k a s'
    | (Throw msg, s') => (Throw msg, s')
    | (Diverge, s') => (Diverge, s')
    end.

Definition throw {A} (msg : string) : M A := fun s => (Throw msg, s).

Definition diverge {A} : M A := fun s => (Diverge, s).

(** Reading [this.users]. *)
Definition users : M Store := fun s => (Ok s, s).

(** [this.users.set(k, u)]. *)
Definition users_set (k : string) (u : User) : M unit :=
  fun s => (Ok tt, JsMap.set k u s).

(** [try { c } catch (error) { h(error.message) }]. *)
Definition try_catch {A} (c : M A) (h : string -> M A) : M A :=
  fun s =>
    match c s with
    | (Throw msg, s') => h msg s'
    | r => r
    end.

Declare Scope js_scope.
Delimit Scope js_scope with js.
Notation "x <- c ;; k" := (bind c (fun x => k))
  (at level 61, c at next level, right associativity) : js_scope.
Notation "c ;; k" := (bind c (fun _ => k))
  (at level 61, right associativity) : js_scope.
Local Open Scope js_scope.

(** [for (const x of xs) { acc = body(x, acc) }]. *)
Fixpoint for_of {A B} (xs : list A) (body : A -> B -> M B) (acc : B) : M B :=
  match xs with
  | [] => ret acc
  | x :: xs' => acc' <- body x acc ;; for_of xs' body acc'
  end.

(* ------------------------------------------------------------------ *)
(** ** server/storage.ts: class MemStorage *)

Definition getUser (k : string) : M (option User) :=
  s <- users ;; ret (JsMap.get s k).

(** [this.users.get(id) || null]: a stored object is always truthy. *)
Definition getUserById (k : string) : M (option User) :=
  s <- users ;; ret (JsMap.get s k).

Definition getUserByUsername (name : string) : M (option User) :=
  s <- users ;;
  ret (find (fun user => username user =? name) (JsMap.values s)).

Definition createUser (insertUser : Insert.t) (fx : Effects) : M User :=
  let user := {|
    id := uuid fx;
    name := None;
    email := None;
    mobile := None;
    username := Insert.username insertUser;
    password := hashedPassword fx;
    role := match js_or (Insert.role insertUser) (Some "client") with
            | Some r => r
            | None => "client"
            end;
    package := or_null (Insert.package insertUser);
    parentId := or_null (Insert.parentId insertUser);
    position := or_null (Insert.position insertUser);
    createdAt := now fx
  |} in
  users_set (uuid fx) user ;;
  ret user.

Definition getAllClients : M (list User) :=
  s <- users ;;
  ret (filter (fun user => role user =? "client") (JsMap.values s)).

Definition getClientsByParent (parent : string) : M (list User) :=
  s <- users ;;
  ret (filter (fun user => strict_eq (parentId user) parent) (JsMap.values s)).

Definition allPositions : list Position := [Left; Right].

Definition getAvailablePositions (parent : string) : M (list Position) :=
  children <- getClientsByParent parent ;;
  let occupiedPositions := filter truthy (map position children) in
  ret (filter (fun pos => negb (includes occupiedPositions (positionName pos)))
              allPositions).

(** [arr.push(...items)]: the spread call throws once [items] has more
    entries than the engine can pass as arguments. *)
Definition push_spread {A} (maxSpread : nat) (arr items : list A) : M (list A) :=
  if Nat.leb (List.length items) maxSpread then ret (arr ++ items)
  else throw "Maximum call stack size exceeded".

(** The recursion of [getClientDownline] is bounded by [fuel]; running out of
    it stands for a call that never returns. *)
Fixpoint getClientDownline (maxSpread fuel : nat) (clientId : string)
    : M (list User) :=
  match fuel with
  | O => diverge
  | S fuel' =>
      directChildren <- getClientsByParent clientId ;;
      for_of directChildren
        (fun child downline =>
           childDownline <- getClientDownline maxSpread fuel' (id child) ;;
           push_spread maxSpread (downline ++ [child]) childDownline)
        []
  end.

(** The record built by both [createClient] and [createClientWithPayment]. *)
Definition newClient (client : Client.t) (fx : Effects)
    (parent position : option string) : User := {|
  id := uuid fx;
  name := or_null (Some (Client.name client));
  username := Client.username client;
  password := hashedPassword fx;
  email := or_null (Some (Client.email client));
  mobile := or_null (Some (Client.mobile client));
  role := "client";
  package := Some (packageName (Client.package client));
  parentId := parent;
  position := position;
  createdAt := now fx
|}.

Definition createClient (client : Client.t) (createdById : option string)
    (fx : Effects) : M User :=
  let parent := js_or (Client.parentId client) createdById in
  position <-
    (if truthy parent then
       match parent with
       | Some p =>
           availablePositions <- getAvailablePositions p ;;
           match availablePositions with
           | [] => throw "Parent already has 2 children"
           | first :: _ =>
               ret (Some (positionName
                            match Client.position client with
                            | Some requested => requested
                            | None => first
                            end))
           end
       | None => ret None
       end
     else ret None) ;;
  let user := newClient client fx (or_null parent) position in
  users_set (uuid fx) user ;;
  ret user.

(** The [for ... of allClients] loop of [createClientWithPayment]: it stops
    at the first candidate with an open slot and yields the new values of
    [parentId] and [position], or nothing when it runs to the end. *)
Fixpoint firstAvailableSpot (allClients : list User)
    : M (option (string * Position)) :=
  match allClients with
  | [] => ret None
  | potentialParent :: rest =>
      availablePos <- getAvailablePositions (id potentialParent) ;;
      match availablePos with
      | first :: _ => ret (Some (id potentialParent, first))
      | [] => firstAvailableSpot rest
      end
  end.

Definition createClientWithPayment (client : Client.t) (adminId : option string)
    (fx : Effects) : M User :=
  let parent := js_or (Client.parentId client) adminId in
  placed <-
    (if truthy parent then
       match parent with
       | Some p =>
           availablePositions <- getAvailablePositions p ;;
           match availablePositions with
           | [] =>
               allClients <- getAllClients ;;
               spot <- firstAvailableSpot allClients ;;
               match spot with
               | Some (candidate, first) =>
                   ret (Some candidate, Some (positionName first))
               | None =>
                   if truthy adminId then
                     match adminId with
                     | Some admin =>
                         adminPositions <- getAvailablePositions admin ;;
                         ret (adminId,
                              match adminPositions with
                              | first :: _ => Some (positionName first)
                              | [] => None
                              end)
                     | None => ret (parent, None)
                     end
                   else ret (parent, None)
               end
           | first :: _ => ret (parent, Some (positionName first))
           end
       | None => ret (parent, None)
       end
     else ret (parent, None)) ;;
  let user := newClient client fx (or_null (fst placed)) (or_null (snd placed)) in
  users_set (uuid fx) user ;;
  ret user.

(* ------------------------------------------------------------------ *)
(** ** server/routes.ts: the client-creation routes *)

Module Session.
(** [req.session]: [SessionData] with its two optional fields. *)
Record t : Type := mk {
  userId : option string;
  role : option string
}.
End Session.

(** [PaymentConfirmationRequest]. *)
Record PaymentConfirmationRequest : Type := mkPayment {
  clientData : Client.t;
  paymentConfirmed : bool
}.

(** A user object after [const { password: _, ...rest } = user]. *)
Record ClientView : Type := mkView {
  v_id : string;
  v_name : option string;
  v_username : string;
  v_email : option string;
  v_mobile : option string;
  v_role : string;
  v_package : option string;
  v_parentId : option string;
  v_position : option string;
  v_createdAt : nat
}.

Definition withoutPassword (u : User) : ClientView := {|
  v_id := id u;
  v_name := name u;
  v_username := username u;
  v_email := email u;
  v_mobile := mobile u;
  v_role := role u;
  v_package := package u;
  v_parentId := parentId u;
  v_position := position u;
  v_createdAt := createdAt u
|}.

Inductive Json : Type :=
| JMessage (message : string)
| JClient (client : ClientView)
| JClientMessage (client : ClientView) (message : string).

Record Response : Type := mkResponse {
  status : nat;
  body : Json
}.

Definition requireAuth (session : Session.t) (next : M Response) : M Response :=
  if truthy (Session.userId session) then next
  else ret (mkResponse 401 (JMessage "Authentication required")).

Definition requireAdmin (session : Session.t) (next : M Response) : M Response :=
  if truthy (Session.userId session) && strict_eq (Session.role session) "admin"
  then next
  else ret (mkResponse 403 (JMessage "Admin access required")).

(** [storage.getUserById(x)] for an [x] that may be [undefined]:
    [Map.prototype.get(undefined)] finds nothing. *)
Definition getUserById_opt (k : option string) : M (option User) :=
  match k with
  | Some k' => getUserById k'
  | None => ret None
  end.

Definition withParentId (c : Client.t) (p : option string) : Client.t :=
  Client.mk (Client.name c) (Client.username c) (Client.password c)
            (Client.mobile c) (Client.email c) (Client.package c)
            p (Client.position c).

(** [POST /api/clients/create-with-payment], from the body that
    [paymentConfirmationSchema.parse] returned, for a request during which no
    other request writes to the store. *)
Definition postCreateWithPayment (session : Session.t)
    (paymentData : PaymentConfirmationRequest) (fx : Effects) : M Response :=
  requireAdmin session
    (try_catch
       (if negb (paymentConfirmed paymentData) then
          ret (mkResponse 400 (JMessage "Payment confirmation required"))
        else
          let clientData := clientData paymentData in
          existingUser <- getUserByUsername (Client.username clientData) ;;
          match existingUser with
          | Some _ => ret (mkResponse 400 (JMessage "Username already exists"))
          | None =>
              parentUser <- getUserById_opt
                (js_or (Client.parentId clientData) (Session.userId session)) ;;
              match parentUser with
              | None => ret (mkResponse 400 (JMessage "Parent user not found"))
              | Some _ =>
                  let finalClientData := withParentId clientData
                    (js_or (Client.parentId clientData) (Session.userId session)) in
                  client <- createClientWithPayment finalClientData
                              (Session.userId session) fx ;;
                  ret (mkResponse 201
                         (JClientMessage (withoutPassword client)
                            "Client created successfully after payment confirmation"))
              end
          end)
       (fun message => ret (mkResponse 400 (JMessage message)))).

(** [POST /api/clients], the legacy endpoint for direct creation, from the
    body that [createClientSchema.parse] returned, for a request during which
    no other request writes to the store. *)
Definition postClients (session : Session.t) (clientData : Client.t)
    (fx : Effects) : M Response :=
  requireAdmin session
    (try_catch
       (existingUser <- getUserByUsername (Client.username clientData) ;;
        match existingUser with
        | Some _ => ret (mkResponse 400 (JMessage "Username already exists"))
        | None =>
            let finalClientData := withParentId clientData
              (js_or (Client.parentId clientData) (Session.userId session)) in
            client <- createClient finalClientData (Session.userId session) fx ;;
            ret (mkResponse 201 (JClient (withoutPassword client)))
        end)
       (fun message => ret (mkResponse 400 (JMessage message)))).

(** [POST /api/clients/downline], from the body that
    [createClientSchema.parse] returned, for a request during which no other
    request writes to the store. *)
Definition postClientsDownline (session : Session.t) (clientData : Client.t)
    (fx : Effects) : M Response :=
  requireAuth session
    (try_catch
       (if negb (strict_eq (Session.role session) "client") then
          ret (mkResponse 403 (JMessage "Only clients can add downline members"))
        else
          let clientData := withParentId clientData (Session.userId session) in
          existingUser <- getUserByUsername (Client.username clientData) ;;
          match existingUser with
          | Some _ => ret (mkResponse 400 (JMessage "Username already exists"))
          | None =>
              client <- createClient clientData (Session.userId session) fx ;;
              ret (mkResponse 201 (JClient (withoutPassword client)))
          end)
       (fun message => ret (mkResponse 400 (JMessage message)))).

(** *** The two halves of a creating route

    What a creating route does before the hash of the password is awaited
    ([_check]: [None] when the request goes on to the creating method) and
    after it ([_finish]). *)

Definition postClients_check (session : Session.t) (clientData : Client.t)
    : M (option Response) :=
  if truthy (Session.userId session) && strict_eq (Session.role session) "admin"
  then
    try_catch
      (existingUser <- getUserByUsername (Client.username clientData) ;;
       match existingUser with
       | Some _ =>
           ret (Some (mkResponse 400 (JMessage "Username already exists")))
       | None => ret None
       end)
      (fun message => ret (Some (mkResponse 400 (JMessage message))))
  else ret (Some (mkResponse 403 (JMessage "Admin access required"))).

Definition postClients_finish (session : Session.t) (clientData : Client.t)
    (fx : Effects) : M Response :=
  try_catch
    (let finalClientData := withParentId clientData
       (js_or (Client.parentId clientData) (Session.userId session)) in
     client <- createClient finalClientData (Session.userId session) fx ;;
     ret (mkResponse 201 (JClient (withoutPassword client))))
    (fun message => ret (mkResponse 400 (JMessage message))).

Definition postClientsDownline_check (session : Session.t)
    (clientData : Client.t) : M (option Response) :=
  if truthy (Session.userId session) then
    try_catch
      (if negb (strict_eq (Session.role session) "client") then
         ret (Some (mkResponse 403
                      (JMessage "Only clients can add downline members")))
       else
         existingUser <- getUserByUsername (Client.username clientData) ;;
         match existingUser with
         | Some _ =>
             ret (Some (mkResponse 400 (JMessage "Username already exists")))
         | None => ret None
         end)
      (fun message => ret (Some (mkResponse 400 (JMessage message))))
  else ret (Some (mkResponse 401 (JMessage "Authentication required"))).

Definition postClientsDownline_finish (session : Session.t)
    (clientData : Client.t) (fx : Effects) : M Response :=
  try_catch
    (let clientData := withParentId clientData (Session.userId session) in
     client <- createClient clientData (Session.userId session) fx ;;
     ret (mkResponse 201 (JClient (withoutPassword client))))
    (fun message => ret (mkResponse 400 (JMessage message))).

Definition postCreateWithPayment_check (session : Session.t)
    (paymentData : PaymentConfirmationRequest) : M (option Response) :=
  if truthy (Session.userId session) && strict_eq (Session.role session) "admin"
  then
    try_catch
      (if negb (paymentConfirmed paymentData) then
         ret (Some (mkResponse 400 (JMessage "Payment confirmation required")))
       else
         let clientData := clientData paymentData in
         existingUser <- getUserByUsername (Client.username clientData) ;;
         match existingUser with
         | Some _ =>
             ret (Some (mkResponse 400 (JMessage "Username already exists")))
         | None =>
             parentUser <- getUserById_opt
               (js_or (Client.parentId clientData) (Session.userId session)) ;;
             match parentUser with
             | None =>
                 ret (Some (mkResponse 400 (JMessage "Parent user not found")))
             | Some _ => ret None
             end
         end)
      (fun message => ret (Some (mkResponse 400 (JMessage message))))
  else ret (Some (mkResponse 403 (JMessage "Admin access required"))).

Definition postCreateWithPayment_finish (session : Session.t)
    (paymentData : PaymentConfirmationRequest) (fx : Effects) : M Response :=
  try_catch
    (let clientData := clientData paymentData in
     let finalClientData := withParentId clientData
       (js_or (Client.parentId clientData) (Session.userId session)) in
     client <- createClientWithPayment finalClientData
                 (Session.userId session) fx ;;
     ret (mkResponse 201
            (JClientMessage (withoutPassword client)
               "Client created successfully after payment confirmation")))
    (fun message => ret (mkResponse 400 (JMessage message))).

(** A request whose two halves run on [before] and on [after]: the store
    when the request arrives and the store when the hash is ready. The
    response of the first half, if any, ends the request. *)
Definition in_two_halves (check : M (option Response)) (finish : M Response)
    (before after : Store) : Outcome Response * Store :=
  match check before with
  | (Ok (Some resp), _) => (Ok resp, after)
  | (Ok None, _) => finish after
  | (Throw message, _) => (Throw message, after)
  | (Diverge, _) => (Diverge, after)
  end.

(* ------------------------------------------------------------------ *)
(** ** The tree read off a store *)

(** The nodes whose [parentId] is [parent], in insertion order. *)
Definition childrenOf (s : Store) (parent : string) : list User :=
  filter (fun user => strict_eq (parentId user) parent) (JsMap.values s).

(** The truthy [position] values of the children of [parent]. *)
Definition occupied (s : Store) (parent : string) : list (option string) :=
  filter truthy (map position (childrenOf s parent)).

Definition available (s : Store) (parent : string) : list Position :=
  filter (fun pos => negb (includes (occupied s parent) (positionName pos)))
         allPositions.

Definition clientsOf (s : Store) : list User :=
  filter (fun user => role user =? "client") (JsMap.values s).

(** Some child of [parent] sits at [pos]. *)
Definition occupies (s : Store) (parent : string) (pos : Position) : Prop :=
  exists u, In u (JsMap.values s) /\ parentId u = Some parent /\
            position u = Some (positionName pos).

(** The children of [parent] recorded at [pos]. *)
Definition at_slot (s : Store) (parent : string) (pos : Position) : list User :=
  filter (fun user => strict_eq (position user) (positionName pos))
         (childrenOf s parent).

(** Invariant I2: no slot holds two children. *)
Definition slots_distinct (s : Store) : Prop :=
  forall parent pos, List.length (at_slot s parent pos) <= 1.

(** The first candidate with an open slot, and its first open slot. *)
Fixpoint firstOpen (s : Store) (candidates : list User)
    : option (string * Position) :=
  match candidates with
  | [] => None
  | c :: rest =>
      match available s (id c) with
      | first :: _ => Some (id c, first)
      | [] => firstOpen s rest
      end
  end.

(** [u] descends from the node [x]: a child of [x], or a child of a node that
    descends from [x] (the transitive closure of the child relation). *)
Inductive descendant (s : Store) (x : string) : User -> Prop :=
| desc_child u :
    In u (JsMap.values s) -> parentId u = Some x -> descendant s x u
| desc_step v u :
    descendant s x v -> In u (JsMap.values s) -> parentId u = Some (id v) ->
    descendant s x u.

(** The [n]-th ancestor of the node [x], following stored [parentId]s. *)
Fixpoint ancestor (s : Store) (n : nat) (x : string) : option string :=
  match n with
  | O => Some x
  | S n' =>
      match JsMap.get s x with
      | Some u =>
          match parentId u with
          | Some p => ancestor s n' p
          | None => None
          end
      | None => None
      end
  end.

(** Invariant I4: the ancestor chain of every stored node ends. *)
Definition acyclic (s : Store) : Prop :=
  forall k u, In (k, u) s -> exists n, ancestor s n k = None.

(** What the class maintains of its map: a node is stored under its own
    [id], and a key occurs once. *)
Definition store_ok (s : Store) : Prop :=
  NoDup (JsMap.keys s) /\ forall k u, In (k, u) s -> id u = k.

(* ------------------------------------------------------------------ *)
(** ** The methods as functions of the store *)

(** The new values of [parentId] and [position] that
    [createClientWithPayment] computes before it builds the record. *)
Definition placement (s : Store) (parent adminId : option string)
    : option string * option string :=
  match parent with
  | Some p =>
      if truthy parent then
        match available s p with
        | [] =>
            match firstOpen s (clientsOf s) with
            | Some (candidate, first) =>
                (Some candidate, Some (positionName first))
            | None =>
                match adminId with
                | Some admin =>
                    if truthy adminId then
                      (adminId,
                       match available s admin with
                       | first :: _ => Some (positionName first)
                       | [] => None
                       end)
                    else (parent, None)
                | None => (parent, None)
                end
            end
        | first :: _ => (parent, Some (positionName first))
        end
      else (parent, None)
  | None => (parent, None)
  end.

(** The value of [position] that [createClient] computes, or [None] when it
    throws. *)
Definition directPosition (s : Store) (parent : option string)
    (requested : option Position) : option (option string) :=
  match parent with
  | Some p =>
      if truthy parent then
        match available s p with
        | [] => None
        | first :: _ =>
            Some (Some (positionName match requested with
                                     | Some r => r
                                     | None => first
                                     end))
        end
      else Some None
  | None => Some None
  end.

(** The loop of [getClientDownline] over the direct children, with [f] for
    the recursive call. *)
Fixpoint gather (f : User -> option (list User)) (children acc : list User)
    : option (list User) :=
  match children with
  | [] => Some acc
  | child :: rest =>
      match f child with
      | Some childDownline => gather f rest (acc ++ child :: childDownline)
      | None => None
      end
  end.

(** The traversal of [getClientDownline] on the store [s] without the limit
    on spread arguments, or [None] when the fuel does not suffice. *)
Fixpoint downline (s : Store) (fuel : nat) (x : string) : option (list User) :=
  match fuel with
  | O => None
  | S fuel' =>
      gather (fun child => downline s fuel' (id child)) (childrenOf s x) []
  end.

(** The same loop and traversal with the limit on spread arguments: the
    outcome of [getClientDownline] as a function of the store. *)
Fixpoint gatherL (maxSpread : nat) (f : User -> Outcome (list User))
    (children acc : list User) : Outcome (list User) :=
  match children with
  | [] => Ok acc
  | child :: rest =>
      match f child with
      | Ok childDownline =>
          if Nat.leb (List.length childDownline) maxSpread
          then gatherL maxSpread f rest ((acc ++ [child]) ++ childDownline)
          else Throw "Maximum call stack size exceeded"
      | Throw message => Throw message
      | Diverge => Diverge
      end
  end.

Fixpoint downlineL (maxSpread : nat) (s : Store) (fuel : nat) (x : string)
    : Outcome (list User) :=
  match fuel with
  | O => Diverge
  | S fuel' =>
      gatherL maxSpread (fun child => downlineL maxSpread s fuel' (id child))
              (childrenOf s x) []
  end.

(* ------------------------------------------------------------------ *)
(** ** Concrete stores *)

(** The store after [initializeAdminUser], with ["A"] for the identifier
    drawn for the administrator. *)
Definition adminUser : User := {|
  id := "A";
  name := Some "System Admin";
  username := "admin";
  password := "$2b$10$admin";
  email := Some "admin@nappinghand.com";
  mobile := None;
  role := "admin";
  package := None;
  parentId := None;
  position := None;
  createdAt := 0
|}.

Definition initialStore : Store := JsMap.set "A" adminUser (JsMap.empty User).

(** A request for the client [who] under [parent] at [pos], with fields
    that [createClientSchema] accepts: a name of 2 to 50 characters, a
    username of 3 to 20 letters, digits or underscores, a password of 6 to
    50 characters, a mobile number of 10 digits and an email address. *)
Definition request (who : string) (parent : option string)
    (pos : option Position) : Client.t :=
  Client.mk ("Client " ++ who)%string ("user_" ++ who)%string "secret1"
            "9999999999" "client@example.com" Silver parent pos.

(** The outside results of the call that creates the node [k]. *)
Definition drawn (k : string) : Effects := mkEffects k "$2b$10$digest" 1.

(** The store a computation leaves. *)
Definition exec {A} (c : M A) (s : Store) : Store := snd (c s).

(** The spec's scenario: [B] and [C] under the root [A], [D], [E] under [B]
    and [F], [G] under [C], created in the order B, C, D, E, F, G. *)
Definition scenarioStore : Store :=
  exec (createClientWithPayment (request "g" (Some "C") None) (Some "A") (drawn "G"))
  (exec (createClientWithPayment (request "f" (Some "C") None) (Some "A") (drawn "F"))
  (exec (createClientWithPayment (request "e" (Some "B") None) (Some "A") (drawn "E"))
  (exec (createClientWithPayment (request "d" (Some "B") None) (Some "A") (drawn "D"))
  (exec (createClientWithPayment (request "c" (Some "A") None) (Some "A") (drawn "C"))
  (exec (createClientWithPayment (request "b" (Some "A") None) (Some "A") (drawn "B"))
        initialStore))))).

(** A non-client account under [parent] at [pos], as [createUser] stores it. *)
Definition staff (who parent pos : string) : Insert.t :=
  Insert.mk who "secret1" (Some "admin") None (Some parent) (Some pos).

(** A store without a free slot for the spill-over search: the clients [B]
    and [C] fill the administrator [A], and four non-client accounts fill
    [B] and [C]. *)
Definition saturatedStore : Store :=
  exec (createUser (staff "s4" "C" "right") (drawn "S4"))
  (exec (createUser (staff "s3" "C" "left") (drawn "S3"))
  (exec (createUser (staff "s2" "B" "right") (drawn "S2"))
  (exec (createUser (staff "s1" "B" "left") (drawn "S1"))
  (exec (createClientWithPayment (request "c" (Some "A") None) (Some "A") (drawn "C"))
  (exec (createClientWithPayment (request "b" (Some "A") None) (Some "A") (drawn "B"))
        initialStore))))).

(** The store after [createClient] was given a parent that does not exist. *)
Definition danglingStore : Store :=
  exec (createClient (request "x" (Some "ghost") None) None (drawn "X"))
       initialStore.

(** Three accounts stored under [A] by [createUser] without a position. *)
Definition unplaced (who : string) : Insert.t :=
  Insert.mk who "secret1" None None (Some "A") None.

Definition unplacedStore : Store :=
  exec (createUser (unplaced "m3") (drawn "M3"))
  (exec (createUser (unplaced "m2") (drawn "M2"))
  (exec (createUser (unplaced "m1") (drawn "M1")) initialStore)).

(** The same store with one more child of [A], recorded at [right]. *)
Definition mixedStore : Store :=
  exec (createClient (request "r" (Some "A") (Some Right)) None (drawn "R"))
       unplacedStore.

(** The store without the nodes whose [position] is null. *)
Definition positionedOnly (s : Store) : Store :=
  filter (fun entry => match position (snd entry) with
                       | Some _ => true
                       | None => false
                       end) s.

Definition adminSession : Session.t := Session.mk (Some "A") (Some "admin").

(* ------------------------------------------------------------------ *)
(** ** server/storage.ts: the rest of MemStorage *)

(** [initializeAdminUser], run by the constructor. *)
Definition initializeAdminUser (fx : Effects) : M unit :=
  s <- users ;;
  let adminExists :=
    existsb (fun user => role user =? "admin") (JsMap.values s) in
  if negb adminExists then
    let admin := {|
      id := uuid fx;
      name := Some "System Admin";
      username := "admin";
      password := hashedPassword fx;
      email := Some "admin@nappinghand.com";
      mobile := None;
      role := "admin";
      package := None;
      parentId := None;
      position := None;
      createdAt := now fx
    |} in
    users_set (id admin) admin
  else ret tt.

(** [validateUser]; [bcrypt_compare plain digest] stands for
    [bcrypt.compare]. *)
Definition validateUser (bcrypt_compare : string -> string -> bool)
    (name plain wanted : string) : M (option User) :=
  user <- getUserByUsername name ;;
  match user with
  | None => ret None
  | Some u =>
      if negb (role u =? wanted) then ret None
      else ret (if bcrypt_compare plain (password u) then Some u else None)
  end.

Record ClientStats : Type := mkStats {
  total : nat;
  silver : nat;
  gold : nat;
  diamond : nat
}.

Definition getClientStats : M ClientStats :=
  clients <- getAllClients ;;
  ret {|
    total := List.length clients;
    silver := List.length (filter (fun c => strict_eq (package c) "Silver") clients);
    gold := List.length (filter (fun c => strict_eq (package c) "Gold") clients);
    diamond := List.length (filter (fun c => strict_eq (package c) "Diamond") clients)
  |}.

(** *** Plans *)

(** A row of the [plans] table. *)
Module Plan.
Record t : Type := mk {
  id : string;
  name : string;
  price : string;
  businessVolume : string;
  referralCommission : string;
  treeCommission : string;
  status : string;
  createdAt : nat
}.
End Plan.

(** [InsertPlan]: the row without [id] and [createdAt]; [status] has a
    default and may be left out. *)
Module InsertPlan.
Record t : Type := mk {
  name : string;
  price : string;
  businessVolume : string;
  referralCommission : string;
  treeCommission : string;
  status : option string
}.
End InsertPlan.

(** [UpdatePlan = insertPlanSchema.partial()]: every field may be left out. *)
Module UpdatePlan.
Record t : Type := mk {
  name : option string;
  price : option string;
  businessVolume : option string;
  referralCommission : option string;
  treeCommission : option string;
  status : option string
}.
End UpdatePlan.

(** The field [plans] of [MemStorage]. *)
Definition Plans : Type := JsMap.t Plan.t.

(** [Map.prototype.has] and the map left by [Map.prototype.delete]. *)
Definition JsMap_has {V : Type} (m : JsMap.t V) (k : string) : bool :=
  match JsMap.get m k with
  | Some _ => true
  | None => false
  end.

Fixpoint JsMap_remove {V : Type} (k : string) (m : JsMap.t V) : JsMap.t V :=
  match m with
  | [] => []
  | (k', v) :: m' => if k' =? k then m' else (k', v) :: JsMap_remove k m'
  end.

Definition getAllPlans (plans : Plans) : list Plan.t := JsMap.values plans.

Definition getPlanById (k : string) (plans : Plans) : option Plan.t :=
  JsMap.get plans k.

Definition createPlan (planData : InsertPlan.t) (fx : Effects) (plans : Plans)
    : Plan.t * Plans :=
  let plan := {|
    Plan.id := uuid fx;
    Plan.name := InsertPlan.name planData;
    Plan.price := InsertPlan.price planData;
    Plan.businessVolume := InsertPlan.businessVolume planData;
    Plan.referralCommission := InsertPlan.referralCommission planData;
    Plan.treeCommission := InsertPlan.treeCommission planData;
    Plan.status := match js_or (InsertPlan.status planData) (Some "active") with
                   | Some st => st
                   | None => "active"
                   end;
    Plan.createdAt := now fx
  |} in
  (plan, JsMap.set (uuid fx) plan plans).

(** One field of [{ ...existingPlan, ...planData }]. *)
Definition spread (existing : string) (given : option string) : string :=
  match given with
  | Some v => v
  | None => existing
  end.

Definition updatePlan (k : string) (planData : UpdatePlan.t) (plans : Plans)
    : option Plan.t * Plans :=
  match JsMap.get plans k with
  | None => (None, plans)
  | Some existingPlan =>
      let updatedPlan := {|
        Plan.id := Plan.id existingPlan;
        Plan.name := spread (Plan.name existingPlan) (UpdatePlan.name planData);
        Plan.price := spread (Plan.price existingPlan) (UpdatePlan.price planData);
        Plan.businessVolume := spread (Plan.businessVolume existingPlan)
                                 (UpdatePlan.businessVolume planData);
        Plan.referralCommission := spread (Plan.referralCommission existingPlan)
                                     (UpdatePlan.referralCommission planData);
        Plan.treeCommission := spread (Plan.treeCommission existingPlan)
                                 (UpdatePlan.treeCommission planData);
        Plan.status := spread (Plan.status existingPlan) (UpdatePlan.status planData);
        Plan.createdAt := Plan.createdAt existingPlan
      |} in
      (Some updatedPlan, JsMap.set k updatedPlan plans)
  end.

Definition deletePlan (k : string) (plans : Plans) : bool * Plans :=
  (JsMap_has plans k, JsMap_remove k plans).

(** [initializePlans], run by the constructor, with the three identifiers
    and dates it draws. *)
Definition initializePlans (fx1 fx2 fx3 : Effects) (plans : Plans) : Plans :=
  let defaultPlans := [
    Plan.mk (uuid fx1) "Silver" "₹510.00 INR" "100" "₹100.00 INR"
            "₹200.00 INR" "active" (now fx1);
    Plan.mk (uuid fx2) "Gold" "₹1010.00 INR" "200" "₹200.00 INR"
            "₹400.00 INR" "active" (now fx2);
    Plan.mk (uuid fx3) "Diamond" "₹1510.00 INR" "300" "₹300.00 INR"
            "₹600.00 INR" "active" (now fx3)
  ] in
  fold_left (fun acc plan => JsMap.set (Plan.id plan) plan acc)
            defaultPlans plans.

(** The plans after the constructor, with [S], [G] and [D] for the drawn
    identifiers. *)
Definition defaultPlanStore : Plans :=
  initializePlans (drawn "S") (drawn "G") (drawn "D") (JsMap.empty Plan.t).

(* ------------------------------------------------------------------ *)
(** ** server/routes.ts: login *)

(** [z.enum(["admin", "client"])]. *)
Inductive RoleName : Type := AdminRole | ClientRole.

Definition roleName (r : RoleName) : string :=
  match r with
  | AdminRole => "admin"
  | ClientRole => "client"
  end.

(** [LoginRequest]. *)
Module Login.
Record t : Type := mk {
  username : string;
  password : string;
  role : RoleName
}.
End Login.

(** [POST /api/auth/login]: the response and the session it leaves. Both
    [minLength(1)] constraints are part of the parsed type's domain and are
    not re-checked here. *)
Definition postLogin (bcrypt_compare : string -> string -> bool)
    (session : Session.t) (credentials : Login.t)
    : M (Response * Session.t) :=
  try_catch
    (user <- validateUser bcrypt_compare (Login.username credentials)
               (Login.password credentials)
               (roleName (Login.role credentials)) ;;
     match user with
     | None => ret (mkResponse 401 (JMessage "Invalid credentials"), session)
     | Some u =>
         ret (mkResponse 200 (JClient (withoutPassword u)),
              Session.mk (Some (id u)) (Some (role u)))
     end)
    (fun _ => ret (mkResponse 500 (JMessage "Internal server error"), session)).

(* ------------------------------------------------------------------ *)
(** ** Invariants of a tree grown by the payment route *)

(** Every recorded [parentId] is the key of a stored node. *)
Definition resolves (s : Store) : Prop :=
  forall u p, In u (JsMap.values s) -> parentId u = Some p ->
              JsMap.get s p <> None.

(** Invariant I3: [position] is recorded (as left or right) exactly when
    [parentId] is. *)
Definition placed_or_unattached (s : Store) : Prop :=
  forall u, In u (JsMap.values s) ->
    (parentId u = None /\ position u = None) \/
    (exists p pos, parentId u = Some p /\
                   position u = Some (positionName pos)).

(** As soon as some node has a parent, some client has no child. *)
Definition has_open_leaf (s : Store) : Prop :=
  (exists u, In u (JsMap.values s) /\ parentId u <> None) ->
  exists c, In c (clientsOf s) /\ childrenOf s (id c) = [].

Record tree_ok (s : Store) : Prop := mkTreeOk {
  tree_store_ok : store_ok s;
  tree_slots : slots_distinct s;
  tree_placed : placed_or_unattached s;
  tree_resolves : resolves s;
  tree_ids : forall c, In c (clientsOf s) -> id c <> "";
  tree_leaf : has_open_leaf s;
  tree_acyclic : acyclic s
}.

(** The stores the server can reach from its constructor through
    [POST /api/clients/create-with-payment], each call drawing an
    identifier that is not empty and not yet in the store. *)
Inductive grown : Store -> Prop :=
| grown_init fx :
    grown (exec (initializeAdminUser fx) (JsMap.empty User))
| grown_post s session paymentData fx :
    grown s ->
    JsMap.get s (uuid fx) = None ->
    uuid fx <> "" ->
    grown (exec (postCreateWithPayment session paymentData fx) s).

(** No two stored users share a [username]. *)
Definition usernames_unique (s : Store) : Prop :=
  NoDup (map username (JsMap.values s)).

(** A creation route answered, and either it stored exactly the new client
    under the drawn identifier and said 201, or it said something else and
    left the store as it was. *)
Definition atomic_answer (fx : Effects) (s : Store)
    (result : Outcome Response * Store) : Prop :=
  exists resp s',
    result = (Ok resp, s') /\
    ((status resp = 201 /\
      exists user, id user = uuid fx /\ role user = "client" /\
                   s' = JsMap.set (uuid fx) user s) \/
     (status resp <> 201 /\ s' = s)).

(** A store holding a two-node cycle: [P] and [Q] are each other's parent. *)
Definition cyclicStore : Store :=
  exec (createUser (Insert.mk "q" "secret1" None None (Some "P") (Some "left"))
          (drawn "Q"))
  (exec (createUser (Insert.mk "p" "secret1" None None (Some "Q") (Some "left"))
          (drawn "P"))
        initialStore).

(** The store after the constructor and two accepted payment requests. *)
Definition grownStore : Store :=
  exec (postCreateWithPayment adminSession
          (mkPayment (request "c" (Some "B") None) true) (drawn "C"))
  (exec (postCreateWithPayment adminSession
          (mkPayment (request "b" None None) true) (drawn "B"))
  (exec (initializeAdminUser (mkEffects "A" "$2b$10$admin" 0))
        (JsMap.empty User))).

(** A stand-in for [bcrypt.compare]: the digest of [plain] is ["#" ++ plain]. *)
Definition toyCompare (plain digest : string) : bool :=
  ("#" ++ plain =? digest)%string.

(* ------------------------------------------------------------------ *)
(** ** Running the methods *)

Lemma strict_eq_true (a : option string) (x : string) :
  strict_eq a x = true <-> a = Some x.
Proof.
  destruct a as [y|]; simpl.
  - rewrite String.eqb_eq. split; congruence.
  - split; discriminate.
Qed.

Lemma truthy_positionName (pos : Position) :
  truthy (Some (positionName pos)) = true.
Proof. destruct pos; reflexivity. Qed.

Lemma or_null_positionName (pos : Position) :
  or_null (Some (positionName pos)) = Some (positionName pos).
Proof. destruct pos; reflexivity. Qed.

Lemma positionName_inj (p q : Position) :
  positionName p = positionName q -> p = q.
Proof. destruct p, q; simpl; congruence. Qed.

Lemma or_null_truthy (a : option string) : truthy a = true -> or_null a = a.
Proof. intros H. unfold or_null, js_or. rewrite H. reflexivity. Qed.

Lemma truthy_nonempty (x : string) : x <> "" -> truthy (Some x) = true.
Proof.
  intros H. simpl. destruct (String.eqb_spec x ""); [contradiction|reflexivity].
Qed.

Lemma in_childrenOf (s : Store) (parent : string) (u : User) :
  In u (childrenOf s parent) <->
  In u (JsMap.values s) /\ parentId u = Some parent.
Proof.
  unfold childrenOf. rewrite filter_In, strict_eq_true. reflexivity.
Qed.

Lemma includes_occupied (s : Store) (parent : string) (pos : Position) :
  includes (occupied s parent) (positionName pos) = true <->
  occupies s parent pos.
Proof.
  unfold includes, occupied, occupies. rewrite existsb_exists. split.
  - intros (a & Hin & Heq). apply strict_eq_true in Heq. subst a.
    apply filter_In in Hin. destruct Hin as [Hin _].
    apply in_map_iff in Hin. destruct Hin as (u & Hpos & Hu).
    apply in_childrenOf in Hu. exists u. tauto.
  - intros (u & Hin & Hpar & Hpos). exists (Some (positionName pos)). split.
    + apply filter_In. split; [|apply truthy_positionName].
      rewrite <- Hpos. apply in_map. apply in_childrenOf. tauto.
    + apply strict_eq_true. reflexivity.
Qed.

Lemma in_available (s : Store) (parent : string) (pos : Position) :
  In pos (available s parent) <-> ~ occupies s parent pos.
Proof.
  unfold available. rewrite filter_In, negb_true_iff, <- includes_occupied.
  split.
  - intros [_ H]. congruence.
  - intros H. split.
    + destruct pos; simpl; auto.
    + destruct (includes _ _); congruence.
Qed.

(** The result is one of the four sub-lists of [[Left; Right]], so its head
    is [Left] whenever [Left] is in it. *)
Lemma available_shape (s : Store) (parent : string) :
  available s parent =
    (if includes (occupied s parent) "left" then [] else [Left]) ++
    (if includes (occupied s parent) "right" then [] else [Right]).
Proof.
  unfold available. simpl.
  destruct (includes (occupied s parent) "left"),
           (includes (occupied s parent) "right"); reflexivity.
Qed.

Lemma available_head (s : Store) (parent : string) (first : Position)
    (rest : list Position) :
  available s parent = first :: rest ->
  (~ occupies s parent Left -> first = Left) /\
  (occupies s parent Left -> first = Right /\ ~ occupies s parent Right).
Proof.
  intros H.
  assert (Hin : In first (available s parent)) by (rewrite H; left; reflexivity).
  apply in_available in Hin.
  rewrite available_shape in H.
  split.
  - intros HL.
    destruct (includes (occupied s parent) "left") eqn:E.
    + exfalso. apply HL. apply (includes_occupied s parent Left). exact E.
    + simpl in H. congruence.
  - intros HL. destruct first; [contradiction|]. split; [reflexivity|exact Hin].
Qed.

Lemma available_empty (s : Store) (parent : string) :
  available s parent = [] <-> occupies s parent Left /\ occupies s parent Right.
Proof.
  rewrite <- (includes_occupied s parent Left),
          <- (includes_occupied s parent Right).
  rewrite available_shape. simpl.
  destruct (includes (occupied s parent) "left"),
           (includes (occupied s parent) "right"); simpl;
    split; intros H; try discriminate; try tauto;
    destruct H; discriminate.
Qed.

Lemma available_no_positioned_child (s : Store) (parent : string) :
  (forall u, In u (JsMap.values s) -> parentId u = Some parent ->
             position u = None) ->
  available s parent = [Left; Right].
Proof.
  intros H.
  assert (Hfree : forall pos, ~ occupies s parent pos).
  { intros pos (u & Hin & Hpar & Hpos). rewrite (H u Hin Hpar) in Hpos.
    discriminate. }
  rewrite available_shape.
  destruct (includes (occupied s parent) "left") eqn:EL.
  { exfalso. apply (Hfree Left). apply includes_occupied. exact EL. }
  destruct (includes (occupied s parent) "right") eqn:ER.
  { exfalso. apply (Hfree Right). apply includes_occupied. exact ER. }
  reflexivity.
Qed.

Lemma getClientsByParent_run (parent : string) (s : Store) :
  getClientsByParent parent s = (Ok (childrenOf s parent), s).
Proof. reflexivity. Qed.

Lemma getAllClients_run (s : Store) :
  getAllClients s = (Ok (clientsOf s), s).
Proof. reflexivity. Qed.

Lemma getAvailablePositions_run (parent : string) (s : Store) :
  getAvailablePositions parent s = (Ok (available s parent), s).
Proof. reflexivity. Qed.

Lemma firstAvailableSpot_run (candidates : list User) (s : Store) :
  firstAvailableSpot candidates s = (Ok (firstOpen s candidates), s).
Proof.
  induction candidates as [|c rest IH]; simpl; [reflexivity|].
  unfold bind. rewrite getAvailablePositions_run.
  destruct (available s (id c)); [exact IH|reflexivity].
Qed.

Lemma createClientWithPayment_run (client : Client.t)
    (adminId : option string) (fx : Effects) (s : Store) :
  let placed := placement s (js_or (Client.parentId client) adminId) adminId in
  let user := newClient client fx (or_null (fst placed)) (or_null (snd placed)) in
  createClientWithPayment client adminId fx s
  = (Ok user, JsMap.set (uuid fx) user s).
Proof.
  unfold createClientWithPayment, placement.
  set (parent := js_or (Client.parentId client) adminId).
  destruct parent as [p|] eqn:Ep.
  2:{ reflexivity. }
  destruct (truthy (Some p)) eqn:Et.
  2:{ reflexivity. }
  unfold bind at 1. unfold bind at 1. rewrite getAvailablePositions_run.
  destruct (available s p) as [|first rest] eqn:Ea.
  2:{ reflexivity. }
  unfold bind at 1. rewrite getAllClients_run.
  unfold bind at 1. rewrite firstAvailableSpot_run.
  destruct (firstOpen s (clientsOf s)) as [[candidate first]|].
  { reflexivity. }
  destruct adminId as [admin|].
  2:{ reflexivity. }
  destruct (truthy (Some admin)).
  2:{ reflexivity. }
  unfold bind at 1. rewrite getAvailablePositions_run.
  reflexivity.
Qed.

Lemma createClient_run (client : Client.t) (createdById : option string)
    (fx : Effects) (s : Store) :
  let parent := js_or (Client.parentId client) createdById in
  createClient client createdById fx s
  = match directPosition s parent (Client.position client) with
    | Some position =>
        let user := newClient client fx (or_null parent) position in
        (Ok user, JsMap.set (uuid fx) user s)
    | None => (Throw "Parent already has 2 children", s)
    end.
Proof.
  unfold createClient, directPosition.
  set (parent := js_or (Client.parentId client) createdById).
  destruct parent as [p|] eqn:Ep.
  2:{ reflexivity. }
  destruct (truthy (Some p)) eqn:Et.
  2:{ reflexivity. }
  unfold bind at 1. unfold bind at 1. rewrite getAvailablePositions_run.
  destruct (available s p) as [|first rest]; reflexivity.
Qed.

Lemma firstOpen_first (s : Store) (before after : list User) (c : User)
    (first : Position) (rest : list Position) :
  (forall x, In x before -> available s (id x) = []) ->
  available s (id c) = first :: rest ->
  firstOpen s (before ++ c :: after) = Some (id c, first).
Proof.
  intros Hfull Hc. induction before as [|x before IH]; simpl.
  - rewrite Hc. reflexivity.
  - rewrite (Hfull x (or_introl eq_refl)). apply IH.
    intros y Hy. apply Hfull. right. exact Hy.
Qed.

Lemma firstOpen_none (s : Store) (candidates : list User) :
  (forall c, In c candidates -> available s (id c) = []) <->
  firstOpen s candidates = None.
Proof.
  induction candidates as [|c rest IH]; simpl.
  - split; [reflexivity|contradiction].
  - split.
    + intros H. rewrite (H c (or_introl eq_refl)). apply IH.
      intros y Hy. apply H. right. exact Hy.
    + intros H x [<-|Hx].
      * destruct (available s (id c)); [reflexivity|discriminate].
      * destruct (available s (id c)); [|discriminate].
        apply IH; assumption.
Qed.

Lemma firstOpen_some (s : Store) (candidates : list User) (k : string)
    (first : Position) :
  firstOpen s candidates = Some (k, first) ->
  exists c, In c candidates /\ id c = k /\
            exists rest, available s k = first :: rest.
Proof.
  induction candidates as [|c rest IH]; simpl; [discriminate|].
  destruct (available s (id c)) as [|f r] eqn:Ea.
  - intros H. destruct (IH H) as (x & Hx & Hk & Hav).
    exists x. split; [right; exact Hx|]. split; assumption.
  - intros H. injection H as <- <-. exists c.
    split; [left; reflexivity|]. split; [reflexivity|].
    exists r. exact Ea.
Qed.

Lemma JsMap_get_set_same (V : Type) (m : JsMap.t V) (k : string) (v : V) :
  JsMap.get (JsMap.set k v m) k = Some v.
Proof.
  induction m as [|[k' v'] m IH]; simpl.
  - rewrite String.eqb_refl. reflexivity.
  - destruct (String.eqb_spec k' k) as [->|Hne]; simpl.
    + rewrite String.eqb_refl. reflexivity.
    + destruct (String.eqb_spec k' k); [contradiction|exact IH].
Qed.

Lemma JsMap_get_set_other (V : Type) (m : JsMap.t V) (k x : string) (v : V) :
  x <> k -> JsMap.get (JsMap.set k v m) x = JsMap.get m x.
Proof.
  intros Hne. induction m as [|[k' v'] m IH]; simpl.
  - destruct (String.eqb_spec k x); [congruence|reflexivity].
  - destruct (String.eqb_spec k' k) as [->|Hk]; simpl.
    + destruct (String.eqb_spec k x); [congruence|reflexivity].
    + destruct (String.eqb_spec k' x); [reflexivity|exact IH].
Qed.

Lemma JsMap_set_fresh (V : Type) (m : JsMap.t V) (k : string) (v : V) :
  JsMap.get m k = None -> JsMap.set k v m = m ++ [(k, v)].
Proof.
  induction m as [|[k' v'] m IH]; simpl; [reflexivity|].
  destruct (k' =? k); [discriminate|].
  intros H. rewrite IH by exact H. reflexivity.
Qed.

Lemma JsMap_in_set (V : Type) (m : JsMap.t V) (k k0 : string) (v v0 : V) :
  In (k0, v0) (JsMap.set k v m) -> (k0, v0) = (k, v) \/ In (k0, v0) m.
Proof.
  induction m as [|[k' v'] m IH]; simpl.
  - intros [H|[]]. left. symmetry. exact H.
  - destruct (k' =? k); simpl.
    + intros [H|H]; [left; symmetry; exact H|right; right; exact H].
    + intros [H|H]; [right; left; exact H|].
      destruct (IH H) as [H'|H']; [left; exact H'|right; right; exact H'].
Qed.

Lemma JsMap_keys_set (V : Type) (m : JsMap.t V) (k x : string) (v : V) :
  In x (JsMap.keys (JsMap.set k v m)) -> x = k \/ In x (JsMap.keys m).
Proof.
  unfold JsMap.keys. intros H. apply in_map_iff in H.
  destruct H as ([k0 v0] & <- & H). simpl.
  destruct (JsMap_in_set V m k k0 v v0 H) as [Heq|Hin].
  - left. congruence.
  - right. apply in_map_iff. exists (k0, v0). auto.
Qed.

(** The store stays well formed under [this.users.set(user.id, user)], the
    only way the class writes to it. *)
Lemma store_ok_set (s : Store) (u : User) :
  store_ok s -> store_ok (JsMap.set (id u) u s).
Proof.
  intros [Hnd Hid]. split.
  - clear Hid. unfold JsMap.keys in *.
    induction s as [|[k' v'] m IH]; simpl.
    + constructor; [intros []|constructor].
    + inversion Hnd as [|? ? Hnotin Hnd']; subst. simpl in Hnotin.
      destruct (String.eqb_spec k' (id u)) as [->|Hne]; simpl.
      * constructor; assumption.
      * constructor; [|apply IH; exact Hnd'].
        intros Hin. apply (JsMap_keys_set User m (id u) k' u) in Hin.
        destruct Hin as [Heq|Hin]; [congruence|contradiction].
  - intros k0 u0 Hin. apply JsMap_in_set in Hin.
    destruct Hin as [Heq|Hin]; [congruence|apply Hid; exact Hin].
Qed.

Lemma initialStore_ok : store_ok initialStore.
Proof. apply (store_ok_set [] adminUser). split; [constructor|intros ? ? []]. Qed.

Lemma createClientWithPayment_store_ok (s : Store) (client : Client.t)
    (adminId : option string) (fx : Effects) :
  store_ok s -> store_ok (exec (createClientWithPayment client adminId fx) s).
Proof.
  intros H. unfold exec. rewrite createClientWithPayment_run. simpl snd.
  match goal with |- store_ok (JsMap.set _ ?u s) => apply (store_ok_set s u H) end.
Qed.

Lemma createClient_store_ok (s : Store) (client : Client.t)
    (createdById : option string) (fx : Effects) :
  store_ok s -> store_ok (exec (createClient client createdById fx) s).
Proof.
  intros H. unfold exec. rewrite createClient_run.
  destruct (directPosition s _ _); simpl snd; [|exact H].
  match goal with |- store_ok (JsMap.set _ ?u s) => apply (store_ok_set s u H) end.
Qed.

Lemma createUser_store_ok (s : Store) (insertUser : Insert.t) (fx : Effects) :
  store_ok s -> store_ok (exec (createUser insertUser fx) s).
Proof.
  intros H. unfold exec, createUser, bind, users_set, ret. simpl snd.
  match goal with |- store_ok (JsMap.set _ ?u s) => apply (store_ok_set s u H) end.
Qed.

Example scenarioStore_children :
  map id (childrenOf scenarioStore "A") = ["B"; "C"] /\
  map id (childrenOf scenarioStore "B") = ["D"; "E"] /\
  map id (childrenOf scenarioStore "C") = ["F"; "G"] /\
  map id (clientsOf scenarioStore) = ["B"; "C"; "D"; "E"; "F"; "G"].
Proof. vm_compute. repeat split. Qed.

Example saturatedStore_full :
  available saturatedStore "A" = [] /\
  map id (clientsOf saturatedStore) = ["B"; "C"] /\
  available saturatedStore "B" = [] /\
  available saturatedStore "C" = [].
Proof. vm_compute. repeat split. Qed.

(* ------------------------------------------------------------------ *)
(** ** Available slots *)

(** C6. For every store and every [parent], [getAvailablePositions] leaves
    the store as it was and returns [{left, right}] minus the positions of
    the nodes whose [parentId] is [parent], listed left before right: the
    whole [[Left; Right]] when [parent] has no child, and the empty list when
    both positions are occupied. *)
Theorem getAvailablePositions_spec (s : Store) (parent : string) :
  exists slots,
    getAvailablePositions parent s = (Ok slots, s) /\
    (forall pos, In pos slots <-> ~ occupies s parent pos) /\
    (slots = [] \/ slots = [Left] \/ slots = [Right] \/ slots = [Left; Right]) /\
    (childrenOf s parent = [] -> slots = [Left; Right]) /\
    (occupies s parent Left /\ occupies s parent Right -> slots = []).
Proof.
  exists (available s parent). split; [apply getAvailablePositions_run|].
  split; [apply in_available|]. split; [|split].
  - rewrite available_shape.
    destruct (includes (occupied s parent) "left"),
             (includes (occupied s parent) "right"); simpl; tauto.
  - intros Hnone. apply available_no_positioned_child.
    intros u Hin Hpar.
    assert (Hu : In u (childrenOf s parent)) by (apply in_childrenOf; tauto).
    rewrite Hnone in Hu. contradiction.
  - apply available_empty.
Qed.

(** C10, as stated, fails: ["ghost"] is the id of no stored node, yet the
    node created under it occupies its left slot, and only [right] is
    reported. *)
Lemma getAvailablePositions_unknown_id_counterexample :
  JsMap.get danglingStore "ghost" = None /\
  getAvailablePositions "ghost" danglingStore = (Ok [Right], danglingStore).
Proof. split; reflexivity. Qed.

Lemma available_same_occupants (s1 s2 : Store) (parent : string) :
  (forall pos, occupies s1 parent pos <-> occupies s2 parent pos) ->
  available s1 parent = available s2 parent.
Proof.
  intros H. rewrite !available_shape.
  pose proof (includes_occupied s1 parent Left) as L1.
  pose proof (includes_occupied s2 parent Left) as L2.
  pose proof (includes_occupied s1 parent Right) as R1.
  pose proof (includes_occupied s2 parent Right) as R2.
  pose proof (H Left) as HL. pose proof (H Right) as HR.
  simpl positionName in *.
  destruct (includes (occupied s1 parent) "left"),
           (includes (occupied s2 parent) "left"),
           (includes (occupied s1 parent) "right"),
           (includes (occupied s2 parent) "right");
    try reflexivity; exfalso;
    intuition discriminate.
Qed.

Lemma occupies_positionedOnly (s : Store) (parent : string) (pos : Position) :
  occupies (positionedOnly s) parent pos <-> occupies s parent pos.
Proof.
  unfold occupies, positionedOnly, JsMap.values. split.
  - intros (u & Hu & Hp & Hpos). exists u. split; [|tauto].
    apply in_map_iff in Hu. destruct Hu as (e & <- & He).
    apply filter_In in He. apply in_map. tauto.
  - intros (u & Hu & Hp & Hpos). exists u. split; [|tauto].
    apply in_map_iff in Hu. destruct Hu as (e & <- & He).
    apply in_map. apply filter_In. split; [exact He|].
    rewrite Hpos. reflexivity.
Qed.

Lemma occupies_append_unplaced (s : Store) (k : string) (u : User)
    (parent : string) (pos : Position) :
  position u = None ->
  occupies (s ++ [(k, u)]) parent pos <-> occupies s parent pos.
Proof.
  intros Hnone. unfold occupies, JsMap.values. rewrite map_app. simpl. split.
  - intros (v & Hv & Hp & Hpos). exists v. split; [|tauto].
    apply in_app_or in Hv. destruct Hv as [Hv|[<-|[]]]; [exact Hv|].
    congruence.
  - intros (v & Hv & Hp & Hpos). exists v. split; [|tauto].
    apply in_or_app. left. exact Hv.
Qed.

(** C10, amended. Only a child with a non-null position occupies a slot: a
    slot is reported free exactly when no stored node with this [parentId]
    has it as its [position]; the answer is the same on the store without
    its null-position nodes, and the same after any node with a null
    position is added. So when every stored node whose [parentId] is
    [parent] has a null [position], however many they are,
    [getAvailablePositions] reports both left and right; it does in
    particular for an id that no stored node names as its parent. *)
Theorem getAvailablePositions_ignores_null_positions
    (s : Store) (parent : string) :
  exists slots,
    getAvailablePositions parent s = (Ok slots, s) /\
    (forall pos,
       In pos slots <->
       ~ exists u, In u (JsMap.values s) /\ parentId u = Some parent /\
                   position u = Some (positionName pos)) /\
    getAvailablePositions parent (positionedOnly s)
      = (Ok slots, positionedOnly s) /\
    (forall k u, position u = None ->
       getAvailablePositions parent (s ++ [(k, u)])
         = (Ok slots, s ++ [(k, u)])) /\
    ((forall u, In u (JsMap.values s) -> parentId u = Some parent ->
                position u = None) ->
     slots = [Left; Right]).
Proof.
  exists (available s parent).
  split; [apply getAvailablePositions_run|].
  split; [apply in_available|].
  split; [|split].
  - rewrite getAvailablePositions_run. f_equal. f_equal.
    apply available_same_occupants. intros pos.
    apply occupies_positionedOnly.
  - intros k u Hnone. rewrite getAvailablePositions_run. f_equal. f_equal.
    apply available_same_occupants. intros pos.
    apply occupies_append_unplaced. exact Hnone.
  - apply available_no_positioned_child.
Qed.

Lemma getAvailablePositions_ignores_null_positions_witness :
  map position (childrenOf unplacedStore "A") = [None; None; None] /\
  getAvailablePositions "A" unplacedStore = (Ok [Left; Right], unplacedStore) /\
  map position (childrenOf mixedStore "A")
    = [None; None; None; Some "right"] /\
  getAvailablePositions "A" mixedStore = (Ok [Left], mixedStore) /\
  getAvailablePositions "A" (positionedOnly mixedStore)
    = (Ok [Left], positionedOnly mixedStore).
Proof.
  split; [reflexivity|]. split.
  - destruct (getAvailablePositions_ignores_null_positions unplacedStore "A")
      as (slots & Hrun & _ & _ & _ & Hall).
    rewrite Hrun, Hall; [reflexivity|].
    intros u Hin Hpar. vm_compute in Hin.
    repeat (destruct Hin as [<-|Hin]; [first [discriminate Hpar | reflexivity]|]).
    contradiction.
  - split; [reflexivity|].
    destruct (getAvailablePositions_ignores_null_positions mixedStore "A")
      as (slots & Hrun & _ & Hpos & _ & _).
    assert (Hslots : slots = [Left]).
    { pose proof Hrun as H. vm_compute in H. injection H as <-. reflexivity. }
    rewrite Hslots in Hrun, Hpos. split; assumption.
Defined.

(** An id that is the [parentId] of no stored node has both slots. *)
Corollary getAvailablePositions_unreferenced (s : Store) (parent : string) :
  (forall u, In u (JsMap.values s) -> parentId u <> Some parent) ->
  getAvailablePositions parent s = (Ok [Left; Right], s).
Proof.
  intros H. rewrite getAvailablePositions_run.
  rewrite available_no_positioned_child; [reflexivity|].
  intros u Hin Hpar. destruct (H u Hin Hpar).
Qed.

(* ------------------------------------------------------------------ *)
(** ** Direct placement *)

(** C5. With no requested position and a parent that has a free slot, both
    [createClient] and [createClientWithPayment] store the new node under
    that parent at the first available slot, left before right: the stored
    node, found under the drawn identifier, has that parent and that
    position, which is [left] whenever left is free (so whenever both are
    free) and [right] only when left is occupied. *)
Theorem placement_takes_first_available
    (s : Store) (client : Client.t) (creator : option string) (fx : Effects)
    (p : string) (first : Position) (rest : list Position) :
  js_or (Client.parentId client) creator = Some p ->
  p <> "" ->
  Client.position client = None ->
  available s p = first :: rest ->
  let user := newClient client fx (Some p) (Some (positionName first)) in
  createClient client creator fx s = (Ok user, JsMap.set (uuid fx) user s) /\
  createClientWithPayment client creator fx s
    = (Ok user, JsMap.set (uuid fx) user s) /\
  (~ occupies s p Left -> first = Left) /\
  (occupies s p Left -> first = Right /\ ~ occupies s p Right) /\
  (forall stored s',
     createClient client creator fx s = (Ok stored, s') \/
     createClientWithPayment client creator fx s = (Ok stored, s') ->
     JsMap.get s' (uuid fx) = Some stored /\
     id stored = uuid fx /\
     parentId stored = Some p /\
     position stored = Some (positionName first) /\
     (~ occupies s p Left -> position stored = Some "left") /\
     (occupies s p Left -> position stored = Some "right")).
Proof.
  intros Hp Hne Hreq Hav user.
  pose proof (truthy_nonempty p Hne) as Ht.
  assert (H1 : createClient client creator fx s
               = (Ok user, JsMap.set (uuid fx) user s)).
  { rewrite createClient_run, Hp. unfold directPosition.
    rewrite Ht, Hav, Hreq. unfold or_null, js_or. rewrite Ht. reflexivity. }
  assert (H2 : createClientWithPayment client creator fx s
               = (Ok user, JsMap.set (uuid fx) user s)).
  { rewrite createClientWithPayment_run, Hp. unfold placement.
    rewrite Ht, Hav. simpl fst. simpl snd.
    rewrite or_null_positionName. unfold or_null, js_or. rewrite Ht.
    reflexivity. }
  destruct (available_head s p first rest Hav) as [HL HR].
  split; [exact H1|]. split; [exact H2|]. split; [exact HL|].
  split; [exact HR|].
  intros stored s' Hrun.
  assert (Heq : (Ok stored, s') = (Ok user, JsMap.set (uuid fx) user s)).
  { destruct Hrun as [Hrun|Hrun]; rewrite <- Hrun; assumption. }
  injection Heq as -> ->.
  split; [apply JsMap_get_set_same|]. split; [reflexivity|].
  split; [reflexivity|]. split; [reflexivity|]. split.
  - intros Hfree. unfold user. cbn [newClient position].
    rewrite (HL Hfree). reflexivity.
  - intros Hocc. unfold user. cbn [newClient position].
    rewrite (proj1 (HR Hocc)). reflexivity.
Qed.

Lemma placement_takes_first_available_witness :
  available initialStore "A" = [Left; Right] /\
  (exists stored s',
     createClient (request "n" (Some "A") None) None (drawn "N") initialStore
       = (Ok stored, s') /\
     JsMap.get s' "N" = Some stored /\
     parentId stored = Some "A" /\ position stored = Some "left") /\
  (exists stored s',
     createClientWithPayment (request "n" (Some "A") None) None (drawn "N")
       initialStore = (Ok stored, s') /\
     JsMap.get s' "N" = Some stored /\
     parentId stored = Some "A" /\ position stored = Some "left").
Proof.
  split; [reflexivity|].
  pose proof (placement_takes_first_available initialStore
                (request "n" (Some "A") None) None (drawn "N") "A" Left [Right]
                eq_refl) as H.
  assert (Hne : "A" <> "") by discriminate.
  specialize (H Hne eq_refl eq_refl). cbv zeta in H.
  destruct H as (H1 & H2 & _ & _ & H5).
  assert (Hfree : ~ occupies initialStore "A" Left).
  { intros (u & Hu & Hp & _). destruct Hu as [<-|[]]. discriminate. }
  split.
  - eexists. eexists. split; [exact H1|].
    destruct (H5 _ _ (or_introl H1)) as (Hg & _ & Hp & _ & Hl & _).
    split; [exact Hg|]. split; [exact Hp|exact (Hl Hfree)].
  - eexists. eexists. split; [exact H2|].
    destruct (H5 _ _ (or_intror H2)) as (Hg & _ & Hp & _ & Hl & _).
    split; [exact Hg|]. split; [exact Hp|exact (Hl Hfree)].
Defined.

(** C2, as stated, fails: on a parent with both slots free a request for
    [right] under [createClientWithPayment] is placed at [left]. *)
Lemma requested_position_counterexample :
  In Right (available initialStore "A") /\
  exists user store',
    createClientWithPayment (request "n" (Some "A") (Some Right)) (Some "A")
      (drawn "N") initialStore = (Ok user, store') /\
    position user = Some "left".
Proof.
  split; [right; left; reflexivity|].
  eexists. eexists. split; [vm_compute; reflexivity|reflexivity].
Qed.

(** C2, amended. [createClientWithPayment] does not consult the requested
    position: on a parent with a free slot it stores the node at the parent's
    first free slot, left before right, never at an occupied one, and when
    the requested slot is occupied the node gets the other slot.
    [createClient] stores the node at the requested position whenever that
    position is in the parent's available set. *)
Theorem requested_position_honored_when_free
    (s : Store) (client : Client.t) (creator : option string) (fx : Effects)
    (p : string) (requested first : Position) (rest : list Position) :
  js_or (Client.parentId client) creator = Some p ->
  p <> "" ->
  Client.position client = Some requested ->
  available s p = first :: rest ->
  (let user := newClient client fx (Some p) (Some (positionName first)) in
   createClientWithPayment client creator fx s
     = (Ok user, JsMap.set (uuid fx) user s)) /\
  ~ occupies s p first /\
  (occupies s p requested -> first = otherPosition requested) /\
  (In requested (available s p) ->
   let user := newClient client fx (Some p) (Some (positionName requested)) in
   createClient client creator fx s = (Ok user, JsMap.set (uuid fx) user s)).
Proof.
  intros Hp Hne Hreq Hav.
  pose proof (truthy_nonempty p Hne) as Ht.
  assert (Hfree : ~ occupies s p first).
  { apply in_available. rewrite Hav. left. reflexivity. }
  split; [|split; [exact Hfree|split]].
  - rewrite createClientWithPayment_run, Hp. unfold placement.
    rewrite Ht, Hav. simpl fst. simpl snd.
    rewrite or_null_positionName. unfold or_null, js_or. rewrite Ht.
    reflexivity.
  - intros Hocc. destruct requested, first; try reflexivity; contradiction.
  - intros _. rewrite createClient_run, Hp. unfold directPosition.
    rewrite Ht, Hav, Hreq. unfold or_null, js_or. rewrite Ht. reflexivity.
Qed.

Lemma requested_position_honored_when_free_witness :
  let s := exec (createClient (request "b" (Some "A") (Some Left)) None
                   (drawn "B")) initialStore in
  available s "A" = [Right] /\
  (let user := newClient (request "n" (Some "A") (Some Left)) (drawn "N")
                 (Some "A") (Some "right") in
   createClientWithPayment (request "n" (Some "A") (Some Left)) None
     (drawn "N") s = (Ok user, JsMap.set "N" user s)) /\
  (let user := newClient (request "n" (Some "A") (Some Right)) (drawn "N")
                 (Some "A") (Some "right") in
   createClient (request "n" (Some "A") (Some Right)) None (drawn "N") s
     = (Ok user, JsMap.set "N" user s)).
Proof.
  intros s. split; [reflexivity|].
  assert (Hne : "A" <> "") by discriminate.
  split.
  - exact (proj1 (requested_position_honored_when_free s
             (request "n" (Some "A") (Some Left)) None (drawn "N") "A"
             Left Right [] eq_refl Hne eq_refl eq_refl)).
  - refine (proj2 (proj2 (proj2 (requested_position_honored_when_free s
             (request "n" (Some "A") (Some Right)) None (drawn "N") "A"
             Right Right [] eq_refl Hne eq_refl eq_refl))) _).
    left. reflexivity.
Defined.

(* ------------------------------------------------------------------ *)
(** ** Spill-over placement *)

(** C4. When the requested parent has both positions occupied,
    [createClientWithPayment] goes through the client nodes in the order of
    the store (the order of their creation) and stores the new node under the
    first one that has a free slot, at that node's first free slot. *)
Theorem fallback_first_candidate
    (s : Store) (client : Client.t) (adminId : option string) (fx : Effects)
    (p : string) (before after : list User) (c : User)
    (first : Position) (rest : list Position) :
  js_or (Client.parentId client) adminId = Some p ->
  p <> "" ->
  available s p = [] ->
  filter (fun user => role user =? "client") (JsMap.values s)
    = before ++ c :: after ->
  (forall x, In x before -> available s (id x) = []) ->
  available s (id c) = first :: rest ->
  id c <> "" ->
  let user := newClient client fx (Some (id c)) (Some (positionName first)) in
  createClientWithPayment client adminId fx s
    = (Ok user, JsMap.set (uuid fx) user s) /\
  (~ occupies s (id c) Left -> first = Left) /\
  (occupies s (id c) Left -> first = Right /\ ~ occupies s (id c) Right).
Proof.
  intros Hp Hne Hfull Hclients Hbefore Hc Hid user.
  split; [|exact (available_head s (id c) first rest Hc)].
  rewrite createClientWithPayment_run, Hp. unfold placement.
  rewrite (truthy_nonempty p Hne), Hfull. unfold clientsOf. rewrite Hclients.
  rewrite (firstOpen_first s before after c first rest Hbefore Hc).
  simpl fst. simpl snd. rewrite or_null_positionName.
  unfold or_null, js_or. rewrite (truthy_nonempty (id c) Hid). reflexivity.
Qed.

(** The spec's scenario: a placement under the full root [A] lands at the
    left of [D]. *)
Lemma fallback_first_candidate_witness :
  let user := newClient (request "n" (Some "A") None) (drawn "N")
                (Some "D") (Some "left") in
  map id (clientsOf scenarioStore) = ["B"; "C"; "D"; "E"; "F"; "G"] /\
  available scenarioStore "A" = [] /\
  available scenarioStore "B" = [] /\
  available scenarioStore "C" = [] /\
  createClientWithPayment (request "n" (Some "A") None) (Some "A") (drawn "N")
    scenarioStore = (Ok user, JsMap.set "N" user scenarioStore).
Proof.
  intros user. do 4 (split; [reflexivity|]).
  assert (HA : "A" <> "") by discriminate.
  assert (HD : "D" <> "") by discriminate.
  refine (proj1 (fallback_first_candidate scenarioStore
            (request "n" (Some "A") None) (Some "A") (drawn "N") "A"
            (firstn 2 (clientsOf scenarioStore))
            (skipn 3 (clientsOf scenarioStore))
            (nth 2 (clientsOf scenarioStore) adminUser)
            Left [Right] eq_refl HA eq_refl eq_refl _ eq_refl HD)).
  intros x Hx. vm_compute in Hx.
  repeat (destruct Hx as [<-|Hx]; [reflexivity|]). contradiction.
Defined.

(** C3, as stated, fails: with the requested parent, every client and the
    administrator full, [createClientWithPayment] throws nothing and stores
    the new node under the administrator without a position. *)
Lemma tree_full_counterexample :
  available saturatedStore "A" = [] /\
  (forall c, In c (clientsOf saturatedStore) ->
             available saturatedStore (id c) = []) /\
  exists user,
    createClientWithPayment (request "n" (Some "A") None) (Some "A")
      (drawn "N") saturatedStore
      = (Ok user, saturatedStore ++ [("N", user)]) /\
    parentId user = Some "A" /\ position user = None.
Proof.
  split; [reflexivity|]. split.
  - intros c Hc. vm_compute in Hc.
    repeat (destruct Hc as [<-|Hc]; [reflexivity|]). contradiction.
  - eexists. split; [vm_compute; reflexivity|]. split; reflexivity.
Qed.

(** C3, amended. When the requested parent, every client and the
    administrator are full, [createClientWithPayment] does not fail: it
    stores the new node as a child of the administrator with a null
    position. *)
Theorem tree_full_places_under_admin
    (s : Store) (client : Client.t) (admin : string) (fx : Effects)
    (p : string) :
  js_or (Client.parentId client) (Some admin) = Some p ->
  p <> "" ->
  admin <> "" ->
  available s p = [] ->
  (forall c, In c (clientsOf s) -> available s (id c) = []) ->
  available s admin = [] ->
  let user := newClient client fx (Some admin) None in
  createClientWithPayment client (Some admin) fx s
    = (Ok user, JsMap.set (uuid fx) user s).
Proof.
  intros Hp Hne Hadmin Hfull Hclients Hanchor user.
  rewrite createClientWithPayment_run, Hp. unfold placement.
  rewrite (truthy_nonempty p Hne), Hfull.
  rewrite (proj1 (firstOpen_none s (clientsOf s)) Hclients).
  rewrite (truthy_nonempty admin Hadmin), Hanchor.
  simpl fst. simpl snd. unfold or_null, js_or.
  rewrite (truthy_nonempty admin Hadmin). reflexivity.
Qed.

Lemma tree_full_places_under_admin_witness :
  let user := newClient (request "n" (Some "B") None) (drawn "N")
                (Some "A") None in
  createClientWithPayment (request "n" (Some "B") None) (Some "A") (drawn "N")
    saturatedStore = (Ok user, JsMap.set "N" user saturatedStore).
Proof.
  assert (HA : "A" <> "") by discriminate.
  assert (HB : "B" <> "") by discriminate.
  refine (tree_full_places_under_admin saturatedStore
            (request "n" (Some "B") None) "A" (drawn "N") "B"
            eq_refl HB HA eq_refl _ eq_refl).
  intros c Hc. vm_compute in Hc.
  repeat (destruct Hc as [<-|Hc]; [reflexivity|]). contradiction.
Defined.

(** The three ways [createClientWithPayment] can place a node: unattached,
    at a free slot of some node, or without a position under a full node
    when no slot is free anywhere. *)
Lemma placement_cases (s : Store) (parent adminId : option string) :
  (forall c, In c (clientsOf s) -> id c <> "") ->
  let placed := placement s parent adminId in
  (or_null (fst placed) = None /\ or_null (snd placed) = None) \/
  (exists p pos,
     or_null (fst placed) = Some p /\
     or_null (snd placed) = Some (positionName pos) /\
     In pos (available s p)) \/
  (exists p requested,
     or_null (fst placed) = Some p /\ or_null (snd placed) = None /\
     available s p = [] /\
     parent = Some requested /\
     available s requested = [] /\
     forall c, In c (clientsOf s) -> available s (id c) = []).
Proof.
  intros Hids. unfold placement.
  destruct parent as [p|].
  2:{ left. split; reflexivity. }
  destruct (truthy (Some p)) eqn:Et.
  2:{ left. simpl fst. simpl snd. unfold or_null, js_or. rewrite Et.
      split; reflexivity. }
  destruct (available s p) as [|first rest] eqn:Ea.
  2:{ right. left. exists p, first. simpl fst. simpl snd.
      rewrite or_null_positionName, (or_null_truthy (Some p) Et), Ea.
      split; [reflexivity|]. split; [reflexivity|]. left. reflexivity. }
  destruct (firstOpen s (clientsOf s)) as [[candidate first]|] eqn:Ef.
  { apply firstOpen_some in Ef. destruct Ef as (c & Hc & <- & rest & Hav).
    right. left. exists (id c), first. simpl fst. simpl snd.
    rewrite or_null_positionName.
    rewrite (or_null_truthy (Some (id c)) (truthy_nonempty (id c) (Hids c Hc))).
    rewrite Hav. split; [reflexivity|]. split; [reflexivity|].
    left. reflexivity. }
  pose proof (proj2 (firstOpen_none s (clientsOf s)) Ef) as Hnone.
  destruct adminId as [admin|].
  2:{ right. right. exists p, p. simpl fst. simpl snd.
      rewrite (or_null_truthy (Some p) Et). repeat split; auto. }
  destruct (truthy (Some admin)) eqn:Eadm.
  2:{ right. right. exists p, p. simpl fst. simpl snd.
      rewrite (or_null_truthy (Some p) Et). repeat split; auto. }
  simpl fst. simpl snd. rewrite (or_null_truthy (Some admin) Eadm).
  destruct (available s admin) as [|afirst arest] eqn:Eadmin.
  - right. right. exists admin, p. repeat split; auto.
  - right. left. exists admin, afirst. rewrite or_null_positionName, Eadmin.
    split; [reflexivity|]. split; [reflexivity|]. left. reflexivity.
Qed.

(* ------------------------------------------------------------------ *)
(** ** Atomicity *)

(** C8, as stated, fails: with the tree full and no administrator given,
    [createClientWithPayment] succeeds and stores a node whose [parentId] is
    recorded and whose [position] is not. *)
Lemma atomic_placement_counterexample :
  exists user,
    createClientWithPayment (request "n" (Some "A") None) None (drawn "N")
      saturatedStore = (Ok user, saturatedStore ++ [("N", user)]) /\
    parentId user = Some "A" /\ position user = None.
Proof.
  eexists. split; [vm_compute; reflexivity|]. split; reflexivity.
Qed.

(** C8, amended. [createClient] either throws and leaves the store as it
    was, or stores exactly the new node, with [parentId] and [position] both
    recorded or both null. [createClientWithPayment] never throws and always
    stores exactly the new node; its [position] is null while its [parentId]
    is recorded only when the requested parent, every client and the node it
    is put under have no free slot. (Identifiers are never empty.) *)
Theorem placement_atomic
    (s : Store) (client : Client.t) (other : option string) (fx : Effects) :
  (forall c, In c (clientsOf s) -> id c <> "") ->
  ((exists message, createClient client other fx s = (Throw message, s)) \/
   (exists user,
      createClient client other fx s = (Ok user, JsMap.set (uuid fx) user s) /\
      id user = uuid fx /\
      ((parentId user = None /\ position user = None) \/
       (exists p pos, parentId user = Some p /\
                      position user = Some (positionName pos))))) /\
  (exists user,
     createClientWithPayment client other fx s
       = (Ok user, JsMap.set (uuid fx) user s) /\
     id user = uuid fx /\
     ((parentId user = None /\ position user = None) \/
      (exists p pos, parentId user = Some p /\
                     position user = Some (positionName pos)) \/
      (exists p requested,
         parentId user = Some p /\ position user = None /\
         available s p = [] /\
         js_or (Client.parentId client) other = Some requested /\
         available s requested = [] /\
         forall c, In c (clientsOf s) -> available s (id c) = []))) /\
  (JsMap.get s (uuid fx) = None ->
   forall user, JsMap.set (uuid fx) user s = s ++ [(uuid fx, user)]).
Proof.
  intros Hids. split; [|split].
  - rewrite createClient_run. unfold directPosition.
    destruct (js_or (Client.parentId client) other) as [p|] eqn:Ep.
    2:{ right. eexists. split; [reflexivity|]. split; [reflexivity|].
        left. split; reflexivity. }
    destruct (truthy (Some p)) eqn:Et.
    2:{ right. eexists. split; [reflexivity|]. split; [reflexivity|].
        left. unfold or_null, js_or. rewrite Et. split; reflexivity. }
    destruct (available s p) as [|first rest].
    { left. eexists. reflexivity. }
    right. eexists. split; [reflexivity|]. split; [reflexivity|].
    right. exists p. eexists. unfold or_null, js_or. rewrite Et.
    split; reflexivity.
  - eexists. split; [apply createClientWithPayment_run|].
    split; [reflexivity|]. simpl.
    destruct (placement_cases s (js_or (Client.parentId client) other) other
                Hids)
      as [H|[(p & pos & Hp & Hpos & _)|(p & requested & H)]].
    + left. exact H.
    + right. left. exists p, pos. split; assumption.
    + right. right. exists p, requested. exact H.
  - intros Hfresh user. apply JsMap_set_fresh. exact Hfresh.
Qed.

Lemma placement_atomic_witness :
  createClient (request "n" (Some "A") (Some Left)) (Some "A") (drawn "N")
    saturatedStore = (Throw "Parent already has 2 children", saturatedStore) /\
  exists user,
    createClientWithPayment (request "n" (Some "A") None) (Some "A")
      (drawn "N") scenarioStore
      = (Ok user, JsMap.set "N" user scenarioStore) /\
    parentId user = Some "D" /\ position user = Some "left".
Proof.
  assert (Hs : forall c, In c (clientsOf saturatedStore) -> id c <> "").
  { intros c Hc. vm_compute in Hc.
    repeat (destruct Hc as [<-|Hc]; [discriminate|]). contradiction. }
  assert (Hd : forall c, In c (clientsOf scenarioStore) -> id c <> "").
  { intros c Hc. vm_compute in Hc.
    repeat (destruct Hc as [<-|Hc]; [discriminate|]). contradiction. }
  split.
  - destruct (proj1 (placement_atomic saturatedStore
                (request "n" (Some "A") (Some Left)) (Some "A") (drawn "N") Hs))
      as [[message H]|[user [H _]]].
    + rewrite H. vm_compute in H. congruence.
    + vm_compute in H. discriminate H.
  - destruct (proj1 (proj2 (placement_atomic scenarioStore
                (request "n" (Some "A") None) (Some "A") (drawn "N") Hd)))
      as [user [H _]].
    exists user. split; [exact H|].
    vm_compute in H. injection H as H. subst user. split; reflexivity.
Defined.

(* ------------------------------------------------------------------ *)
(** ** Capacity *)

Lemma at_slot_occupies (s : Store) (parent : string) (pos : Position) :
  ~ occupies s parent pos -> at_slot s parent pos = [].
Proof.
  intros Hfree. unfold at_slot.
  destruct (filter _ (childrenOf s parent)) as [|u l] eqn:E; [reflexivity|].
  exfalso. apply Hfree.
  assert (Hu : In u (u :: l)) by (left; reflexivity).
  rewrite <- E in Hu. apply filter_In in Hu. destruct Hu as [Hu Hpos].
  apply in_childrenOf in Hu. apply strict_eq_true in Hpos.
  exists u. tauto.
Qed.

Lemma at_slot_append (s : Store) (k : string) (u : User) (parent : string)
    (pos : Position) :
  at_slot (s ++ [(k, u)]) parent pos
  = at_slot s parent pos ++
    (if strict_eq (parentId u) parent
        && strict_eq (position u) (positionName pos)
     then [u] else []).
Proof.
  unfold at_slot, childrenOf, JsMap.values.
  rewrite map_app, !filter_app. simpl.
  destruct (strict_eq (parentId u) parent); simpl; [|reflexivity].
  destruct (strict_eq (position u) (positionName pos)); reflexivity.
Qed.


(** C1, at a failing input. Three calls of [createClient] that each request
    [left] under the administrator all succeed on the initial store: after
    the second, two children of [A] share the position [left]; after the
    third, [A] has three children. *)
Theorem createClient_requested_left_three_times :
  exists u1 u2 u3 s1 s2 s3,
    createClient (request "b" (Some "A") (Some Left)) (Some "A") (drawn "B")
      initialStore = (Ok u1, s1) /\
    createClient (request "c" (Some "A") (Some Left)) (Some "A") (drawn "C")
      s1 = (Ok u2, s2) /\
    createClient (request "d" (Some "A") (Some Left)) (Some "A") (drawn "D")
      s2 = (Ok u3, s3) /\
    available s1 "A" = [Right] /\
    childrenOf s2 "A" = [u1; u2] /\
    id u1 <> id u2 /\
    position u1 = Some "left" /\ position u2 = Some "left" /\
    childrenOf s3 "A" = [u1; u2; u3].
Proof.
  do 6 eexists.
  split; [vm_compute; reflexivity|].
  split; [vm_compute; reflexivity|].
  split; [vm_compute; reflexivity|].
  split; [reflexivity|]. split; [reflexivity|].
  split; [discriminate|]. repeat split.
Qed.

(* ------------------------------------------------------------------ *)
(** ** Unknown parents *)

(** X18. The route [POST /api/clients/create-with-payment] rejects a parent
    that resolves to no stored node and leaves the store as it was. *)
Lemma postCreateWithPayment_parent_not_found
    (s : Store) (session : Session.t) (data : Client.t) (fx : Effects) :
  truthy (Session.userId session) = true ->
  Session.role session = Some "admin" ->
  find (fun user => username user =? Client.username data) (JsMap.values s)
    = None ->
  (forall p, js_or (Client.parentId data) (Session.userId session) = Some p ->
             JsMap.get s p = None) ->
  postCreateWithPayment session (mkPayment data true) fx s
  = (Ok (mkResponse 400 (JMessage "Parent user not found")), s).
Proof.
  intros Huser Hrole Hname Hparent.
  unfold postCreateWithPayment, requireAdmin. rewrite Huser, Hrole. simpl.
  unfold try_catch, bind, getUserByUsername, users, ret. simpl.
  unfold bind, users, ret. rewrite Hname.
  destruct (js_or (Client.parentId data) (Session.userId session)) as [p|] eqn:Ep.
  - simpl. unfold getUserById, bind, users, ret.
    rewrite (Hparent p eq_refl). reflexivity.
  - reflexivity.
Qed.

(** C7, at a failing input. [createClient] never looks its parent up, and
    the legacy route [POST /api/clients] does not either: asked, with a body
    that [createClientSchema] accepts, for the parent ["ghost"], which no
    stored node has as its id, the method stores the new client with
    [parentId = "ghost"] and the route answers 201; the same body through
    [POST /api/clients/create-with-payment] is answered 400, "Parent user
    not found", with the store untouched. *)
Theorem postClients_unknown_parent :
  let data := Client.mk "Alice Roy" "alice_01" "secret1" "9876543210"
                        "alice@example.com" Silver (Some "ghost") None in
  let stored := newClient data (drawn "X") (Some "ghost") (Some "left") in
  JsMap.get initialStore "ghost" = None /\
  createClient data (Some "A") (drawn "X") initialStore
    = (Ok stored, initialStore ++ [("X", stored)]) /\
  postClients adminSession data (drawn "X") initialStore
    = (Ok (mkResponse 201 (JClient (withoutPassword stored))),
       initialStore ++ [("X", stored)]) /\
  parentId stored = Some "ghost" /\
  JsMap.get (initialStore ++ [("X", stored)]) "X" = Some stored /\
  JsMap.get (initialStore ++ [("X", stored)]) "ghost" = None /\
  postCreateWithPayment adminSession (mkPayment data true) (drawn "X")
    initialStore
    = (Ok (mkResponse 400 (JMessage "Parent user not found")), initialStore).
Proof.
  intros data stored.
  repeat (split; [reflexivity|]). reflexivity.
Qed.

(* ------------------------------------------------------------------ *)
(** ** Downline traversal *)

Lemma getClientDownline_run (maxSpread fuel : nat) (x : string) (s : Store) :
  getClientDownline maxSpread fuel x s = (downlineL maxSpread s fuel x, s).
Proof.
  revert x. induction fuel as [|fuel IH]; intros x; [reflexivity|].
  simpl. unfold bind at 1. rewrite getClientsByParent_run.
  assert (Hloop : forall cs acc,
            for_of cs
              (fun child downline =>
                 childDownline <- getClientDownline maxSpread fuel (id child) ;;
                 push_spread maxSpread (downline ++ [child]) childDownline)
              acc s
            = (gatherL maxSpread
                 (fun child => downlineL maxSpread s fuel (id child)) cs acc,
               s)).
  { induction cs as [|c cs IHcs]; intros acc; [reflexivity|].
    simpl. unfold bind at 1. unfold bind at 1. rewrite IH.
    destruct (downlineL maxSpread s fuel (id c)) as [lc| |]; try reflexivity.
    unfold push_spread.
    destruct (Nat.leb (List.length lc) maxSpread); [|reflexivity].
    apply IHcs. }
  apply Hloop.
Qed.

Section Gather.
Variable f : User -> option (list User).

Lemma gather_acc (cs acc : list User) :
  gather f cs acc = option_map (app acc) (gather f cs []).
Proof.
  revert acc. induction cs as [|c cs IH]; intros acc; simpl.
  - rewrite app_nil_r. reflexivity.
  - destruct (f c) as [lc|]; [|reflexivity].
    rewrite (IH (acc ++ c :: lc)), (IH (c :: lc)).
    destruct (gather f cs []) as [l|]; simpl; [|reflexivity].
    rewrite <- app_assoc. reflexivity.
Qed.

Lemma gather_cons (c : User) (cs : list User) :
  gather f (c :: cs) []
  = match f c with
    | Some lc => option_map (app (c :: lc)) (gather f cs [])
    | None => None
    end.
Proof.
  simpl. destruct (f c) as [lc|]; [|reflexivity]. apply gather_acc.
Qed.

Lemma gather_cons_inv (c : User) (cs l : list User) :
  gather f (c :: cs) [] = Some l ->
  exists lc l', f c = Some lc /\ gather f cs [] = Some l' /\
                l = (c :: lc) ++ l'.
Proof.
  rewrite gather_cons. destruct (f c) as [lc|]; [|discriminate].
  destruct (gather f cs []) as [l'|]; [|discriminate].
  simpl. intros H. injection H as <-. exists lc, l'. auto.
Qed.

Lemma gather_In (cs l : list User) :
  gather f cs [] = Some l ->
  forall u, In u l <->
            exists c lc, In c cs /\ f c = Some lc /\ In u (c :: lc).
Proof.
  revert l. induction cs as [|c cs IH]; intros l H u.
  - injection H as <-. split; [contradiction|].
    intros (c & lc & [] & _).
  - apply gather_cons_inv in H. destruct H as (lc & l' & Hc & Hcs & ->).
    rewrite in_app_iff, (IH l' Hcs u). split.
    + intros [Hu|(c' & lc' & Hin & Hf & Hu)].
      * exists c, lc. split; [left; reflexivity|]. split; assumption.
      * exists c', lc'. split; [right; exact Hin|]. split; assumption.
    + intros (c' & lc' & [<-|Hin] & Hf & Hu).
      * left. rewrite Hc in Hf. injection Hf as <-. exact Hu.
      * right. exists c', lc'. split; [exact Hin|]. split; assumption.
Qed.

Lemma gather_total (cs : list User) :
  (forall c, In c cs -> exists lc, f c = Some lc) ->
  exists l, gather f cs [] = Some l.
Proof.
  induction cs as [|c cs IH]; intros H.
  - exists []. reflexivity.
  - destruct (H c (or_introl eq_refl)) as [lc Hc].
    destruct IH as [l' Hl'].
    { intros x Hx. apply H. right. exact Hx. }
    exists ((c :: lc) ++ l'). rewrite gather_cons, Hc, Hl'. reflexivity.
Qed.

Lemma gather_NoDup (cs l : list User) :
  NoDup cs ->
  (forall c lc, In c cs -> f c = Some lc -> NoDup (c :: lc)) ->
  (forall c1 c2 l1 l2 u,
      In c1 cs -> In c2 cs -> c1 <> c2 ->
      f c1 = Some l1 -> f c2 = Some l2 ->
      In u (c1 :: l1) -> In u (c2 :: l2) -> False) ->
  gather f cs [] = Some l -> NoDup l.
Proof.
  revert l. induction cs as [|c cs IH]; intros l Hnd Hblock Hdisj H.
  - injection H as <-. constructor.
  - apply gather_cons_inv in H. destruct H as (lc & l' & Hc & Hcs & ->).
    inversion Hnd as [|? ? Hnotin Hnd']; subst.
    assert (Hl' : NoDup l').
    { apply IH; try assumption.
      - intros c' lc' Hin. apply Hblock. right. exact Hin.
      - intros c1 c2 l1 l2 u H1 H2. apply Hdisj; right; assumption. }
    assert (Hb : NoDup (c :: lc)).
    { apply (Hblock c lc); [left; reflexivity|exact Hc]. }
    assert (Hsep : forall u, In u (c :: lc) -> ~ In u l').
    { intros u Hu Hu'.
      apply (gather_In cs l' Hcs) in Hu'.
      destruct Hu' as (c' & lc' & Hin & Hf & Hu').
      apply (Hdisj c c' lc lc' u); try assumption.
      - left. reflexivity.
      - right. exact Hin.
      - intros <-. contradiction. }
    clear - Hl' Hb Hsep.
    induction (c :: lc) as [|a b IHb]; simpl; [exact Hl'|].
    inversion Hb; subst. constructor.
    + rewrite in_app_iff. intros [Ha|Ha]; [contradiction|].
      apply (Hsep a); [left; reflexivity|exact Ha].
    + apply IHb; [assumption|].
      intros u Hu. apply Hsep. right. exact Hu.
Qed.

Lemma gather_block (cs l : list User) (u : User) :
  gather f cs [] = Some l -> In u l ->
  exists c lc before after,
    In c cs /\ f c = Some lc /\ In u (c :: lc) /\
    l = before ++ (c :: lc) ++ after.
Proof.
  revert l. induction cs as [|c cs IH]; intros l H Hu.
  - injection H as <-. contradiction.
  - apply gather_cons_inv in H. destruct H as (lc & l' & Hc & Hcs & ->).
    apply in_app_or in Hu. destruct Hu as [Hu|Hu].
    + exists c, lc, [], l'. split; [left; reflexivity|]. auto.
    + destruct (IH l' Hcs Hu) as (c' & lc' & before & after & Hin & Hf & Hb & ->).
      exists c', lc', ((c :: lc) ++ before), after.
      split; [right; exact Hin|]. split; [exact Hf|]. split; [exact Hb|].
      rewrite <- app_assoc. reflexivity.
Qed.
End Gather.

Lemma gather_mono (f g : User -> option (list User)) (cs acc l : list User) :
  (forall c lc, In c cs -> f c = Some lc -> g c = Some lc) ->
  gather f cs acc = Some l -> gather g cs acc = Some l.
Proof.
  revert acc. induction cs as [|c cs IH]; intros acc Hfg; simpl; [auto|].
  destruct (f c) as [lc|] eqn:Hc; [|discriminate].
  rewrite (Hfg c lc (or_introl eq_refl) Hc). apply IH.
  intros c' lc' Hin. apply Hfg. right. exact Hin.
Qed.

Lemma downline_more_fuel (s : Store) (fuel fuel' : nat) (x : string)
    (l : list User) :
  fuel <= fuel' -> downline s fuel x = Some l -> downline s fuel' x = Some l.
Proof.
  revert fuel' x l. induction fuel as [|fuel IH]; intros fuel' x l Hle H.
  - discriminate.
  - destruct fuel' as [|fuel']; [lia|]. simpl in *.
    apply gather_mono with (f := fun child => downline s fuel (id child));
      [|exact H].
    intros c lc _. apply IH. lia.
Qed.

Section Tree.
Variable s : Store.
Hypothesis Hok : store_ok s.

Lemma stored_get (u : User) :
  In u (JsMap.values s) -> JsMap.get s (id u) = Some u.
Proof.
  destruct Hok as [Hnd Hid]. clear Hok.
  unfold JsMap.values, JsMap.keys in *. intros Hin.
  apply in_map_iff in Hin. destruct Hin as ([k v] & Hv & Hin).
  simpl in Hv. subst v. rewrite (Hid k u Hin). clear Hid.
  induction s as [|[k' v'] m IH]; [contradiction|]. simpl in *.
  inversion Hnd as [|? ? Hnotin Hnd']; subst.
  destruct Hin as [Heq|Hin].
  - injection Heq as -> ->. rewrite String.eqb_refl. reflexivity.
  - destruct (String.eqb_spec k' k) as [->|Hne].
    + exfalso. apply Hnotin. apply in_map_iff. exists (k, u). auto.
    + apply IH; assumption.
Qed.

Lemma get_stored (k : string) (u : User) :
  JsMap.get s k = Some u -> In (k, u) s.
Proof.
  clear Hok. induction s as [|[k' v'] m IH]; simpl; [discriminate|].
  destruct (String.eqb_spec k' k) as [->|Hne].
  - intros H. injection H as ->. left. reflexivity.
  - intros H. right. apply IH. exact H.
Qed.

Lemma stored_same_id (u v : User) :
  In u (JsMap.values s) -> In v (JsMap.values s) -> id u = id v -> u = v.
Proof.
  intros Hu Hv Heq. apply stored_get in Hu. apply stored_get in Hv.
  rewrite Heq in Hu. congruence.
Qed.

Lemma NoDup_values : NoDup (JsMap.values s).
Proof.
  apply (NoDup_map_inv id).
  destruct Hok as [Hnd Hid].
  replace (map id (JsMap.values s)) with (JsMap.keys s); [exact Hnd|].
  unfold JsMap.values, JsMap.keys. rewrite map_map.
  apply map_ext_in. intros [k u] Hin. simpl. symmetry. apply Hid. exact Hin.
Qed.

Lemma NoDup_childrenOf (x : string) : NoDup (childrenOf s x).
Proof. apply NoDup_filter. apply NoDup_values. Qed.

Lemma ancestor_child (u : User) (p : string) (n : nat) :
  In u (JsMap.values s) -> parentId u = Some p ->
  ancestor s (S n) (id u) = ancestor s n p.
Proof.
  intros Hin Hp. simpl. rewrite (stored_get u Hin), Hp. reflexivity.
Qed.

Lemma ancestor_add (a b : nat) (y : string) :
  ancestor s (a + b) y
  = match ancestor s a y with
    | Some z => ancestor s b z
    | None => None
    end.
Proof.
  revert y. induction a as [|a IH]; intros y; simpl; [reflexivity|].
  destruct (JsMap.get s y) as [u|]; [|reflexivity].
  destruct (parentId u) as [p|]; [apply IH|reflexivity].
Qed.

Lemma ancestor_loop (n k : nat) (x : string) :
  ancestor s n x = Some x -> ancestor s (k * n) x = Some x.
Proof.
  intros H. induction k as [|k IH]; [reflexivity|].
  simpl. rewrite ancestor_add, H. exact IH.
Qed.

Hypothesis Hacyclic : acyclic s.

Lemma no_cycle (n : nat) (x : string) : ancestor s (S n) x <> Some x.
Proof.
  intros H.
  assert (Hst : exists u, In (x, u) s).
  { simpl in H. destruct (JsMap.get s x) as [u|] eqn:E; [|discriminate].
    exists u. apply get_stored. exact E. }
  destruct Hst as [u Hu]. destruct (Hacyclic x u Hu) as [m Hm].
  pose proof (ancestor_loop (S n) m x H) as Hloop.
  replace (m * S n) with (m + m * n) in Hloop by lia.
  rewrite ancestor_add, Hm in Hloop. discriminate.
Qed.

(** A bound on the length of every ancestor chain. *)
Lemma chains_bounded :
  exists bound, forall u, In u (JsMap.values s) ->
                          ancestor s bound (id u) = None.
Proof.
  assert (H : forall m : Store, incl m s ->
            exists bound, forall k u, In (k, u) m -> ancestor s bound k = None).
  { induction m as [|[k u] m IH]; intros Hincl.
    - exists 0. contradiction.
    - destruct IH as [b Hb].
      { intros e He. apply Hincl. right. exact He. }
      destruct (Hacyclic k u (Hincl _ (or_introl eq_refl))) as [n Hn].
      exists (n + b). intros k' u' [Heq|Hin].
      + injection Heq as <- <-. rewrite ancestor_add, Hn. reflexivity.
      + rewrite Nat.add_comm, ancestor_add, (Hb k' u' Hin). reflexivity. }
  destruct (H s (incl_refl s)) as [bound Hb]. exists bound.
  intros u Hu. unfold JsMap.values in Hu. apply in_map_iff in Hu.
  destruct Hu as ([k v] & Hv & Hin). simpl in Hv. subst v.
  rewrite (proj2 Hok k u Hin). apply (Hb k u Hin).
Qed.

Lemma descendant_ancestor (x : string) (u : User) :
  descendant s x u -> exists n, ancestor s (S n) (id u) = Some x.
Proof.
  induction 1 as [u Hin Hp|v u Hv [n IH] Hin Hp].
  - exists 0. rewrite (ancestor_child u x 0 Hin Hp). reflexivity.
  - exists (S n). rewrite (ancestor_child u (id v) (S n) Hin Hp). exact IH.
Qed.

Lemma descendant_under_child (x : string) (c u : User) :
  In c (JsMap.values s) -> parentId c = Some x ->
  descendant s (id c) u -> descendant s x u.
Proof.
  intros Hc Hp. induction 1 as [u Hin Hpu|v u Hv IH Hin Hpu].
  - apply desc_step with (v := c); [apply desc_child|..]; assumption.
  - apply desc_step with (v := v); assumption.
Qed.

Lemma descendant_split (x : string) (u : User) :
  descendant s x u ->
  exists c, In c (childrenOf s x) /\ (u = c \/ descendant s (id c) u).
Proof.
  induction 1 as [u Hin Hp|v u Hv (c & Hc & IH) Hin Hp].
  - exists u. split; [apply in_childrenOf; tauto|left; reflexivity].
  - exists c. split; [exact Hc|]. right. destruct IH as [->|IH].
    + apply desc_child; assumption.
    + apply desc_step with (v := v); assumption.
Qed.

Lemma downline_In (fuel : nat) (x : string) (l : list User) :
  downline s fuel x = Some l ->
  forall u, In u l <-> descendant s x u.
Proof.
  revert x l. induction fuel as [|fuel IH]; intros x l H u; [discriminate|].
  simpl in H. rewrite (gather_In _ _ _ H u). split.
  - intros (c & lc & Hc & Hf & Hu). apply in_childrenOf in Hc.
    destruct Hc as [Hc Hp]. destruct Hu as [<-|Hu].
    + apply desc_child; assumption.
    + apply (descendant_under_child x c u Hc Hp).
      apply (IH (id c) lc Hf). exact Hu.
  - intros Hd. apply descendant_split in Hd.
    destruct Hd as (c & Hc & Hu).
    assert (Hlc : exists lc, downline s fuel (id c) = Some lc).
    { clear - H Hc. revert H. generalize (@nil User) as acc.
      induction (childrenOf s x) as [|c' cs IHcs]; intros acc H;
        [contradiction|].
      simpl in H.
      destruct (downline s fuel (id c')) as [lc'|] eqn:E; [|discriminate].
      destruct Hc as [->|Hc]; [exists lc'; exact E|].
      apply (IHcs Hc _ H). }
    destruct Hlc as [lc Hlc]. exists c, lc.
    split; [exact Hc|]. split; [exact Hlc|].
    destruct Hu as [->|Hu]; [left; reflexivity|].
    right. apply (IH (id c) lc Hlc). exact Hu.
Qed.

(** Enough fuel: one more than a bound on the ancestor chains. *)
Lemma downline_terminates :
  exists fuel, forall x, exists l, downline s fuel x = Some l.
Proof.
  destruct chains_bounded as [bound Hb].
  assert (H : forall n m x, n + m = bound ->
            (forall c, In c (childrenOf s x) ->
                       ancestor s m (id c) <> None) ->
            exists l, downline s (S n) x = Some l).
  { induction n as [|n IH]; intros m x Hnm Hdeep.
    - simpl in Hnm. subst m. simpl.
      destruct (childrenOf s x) as [|c cs] eqn:E; [exists []; reflexivity|].
      exfalso. apply (Hdeep c (or_introl eq_refl)). apply Hb.
      assert (Hc : In c (childrenOf s x)) by (rewrite E; left; reflexivity).
      apply in_childrenOf in Hc. tauto.
    - change (downline s (S (S n)) x)
        with (gather (fun child => downline s (S n) (id child))
                     (childrenOf s x) []).
      apply gather_total. intros c Hc.
      apply (IH (S m) (id c)); [lia|].
      intros g Hg. apply in_childrenOf in Hg. destruct Hg as [Hg Hpg].
      rewrite (ancestor_child g (id c) m Hg Hpg). apply Hdeep. exact Hc. }
  exists (S bound). intros x. apply (H bound 0 x); [lia|].
  intros c _. discriminate.
Qed.

Lemma not_own_descendant (c : User) : ~ descendant s (id c) c.
Proof.
  intros H. apply descendant_ancestor in H. destruct H as [n H].
  exact (no_cycle n (id c) H).
Qed.

(** A node below (or equal to) two children of [x] makes them equal. *)
Lemma blocks_disjoint (x : string) (c1 c2 u : User) :
  In c1 (childrenOf s x) -> In c2 (childrenOf s x) ->
  u = c1 \/ descendant s (id c1) u ->
  u = c2 \/ descendant s (id c2) u ->
  c1 = c2.
Proof.
  intros H1 H2 Hu1 Hu2.
  apply in_childrenOf in H1. destruct H1 as [Hc1 Hp1].
  apply in_childrenOf in H2. destruct H2 as [Hc2 Hp2].
  assert (Hup : forall c, u = c \/ descendant s (id c) u ->
                          exists n, ancestor s n (id u) = Some (id c)).
  { intros c [->|Hd]; [exists 0; reflexivity|].
    apply descendant_ancestor in Hd. destruct Hd as [n Hn].
    exists (S n). exact Hn. }
  destruct (Hup c1 Hu1) as [n1 Hn1]. destruct (Hup c2 Hu2) as [n2 Hn2].
  assert (Hcase : forall a b ca cb,
            In ca (JsMap.values s) -> parentId ca = Some x ->
            In cb (JsMap.values s) -> parentId cb = Some x ->
            ancestor s a (id u) = Some (id ca) ->
            ancestor s (a + b) (id u) = Some (id cb) -> ca = cb).
  { intros a b ca cb Hca Hpa Hcb Hpb Ha Hab.
    rewrite ancestor_add, Ha in Hab. destruct b as [|b].
    - simpl in Hab. injection Hab as Hid.
      apply stored_same_id; assumption.
    - exfalso. rewrite (ancestor_child ca x b Hca Hpa) in Hab.
      apply (no_cycle b x).
      replace (S b) with (b + 1) by lia.
      rewrite ancestor_add, Hab.
      rewrite (ancestor_child cb x 0 Hcb Hpb). reflexivity. }
  destruct (Nat.le_ge_cases n1 n2) as [Hle|Hle].
  - apply (Hcase n1 (n2 - n1) c1 c2); try assumption.
    replace (n1 + (n2 - n1)) with n2 by lia. exact Hn2.
  - symmetry. apply (Hcase n2 (n1 - n2) c2 c1); try assumption.
    replace (n2 + (n1 - n2)) with n1 by lia. exact Hn1.
Qed.

Lemma downline_NoDup (fuel : nat) (x : string) (l : list User) :
  downline s fuel x = Some l -> NoDup l.
Proof.
  revert x l. induction fuel as [|fuel IH]; intros x l H; [discriminate|].
  simpl in H. revert H. apply gather_NoDup.
  - apply NoDup_childrenOf.
  - intros c lc Hc Hf. constructor; [|apply (IH (id c) lc Hf)].
    intros Hin. apply (downline_In fuel (id c) lc Hf) in Hin.
    exact (not_own_descendant c Hin).
  - intros c1 c2 l1 l2 u H1 H2 Hne Hf1 Hf2 Hu1 Hu2. apply Hne.
    apply (blocks_disjoint x c1 c2 u H1 H2).
    + destruct Hu1 as [<-|Hu1]; [left; reflexivity|].
      right. apply (downline_In fuel (id c1) l1 Hf1). exact Hu1.
    + destruct Hu2 as [<-|Hu2]; [left; reflexivity|].
      right. apply (downline_In fuel (id c2) l2 Hf2). exact Hu2.
Qed.

(** Pre-order: a node of the result is followed at once by its own
    downline. *)
Lemma downline_preorder (fuel : nat) (x : string) (l : list User) (u : User) :
  downline s fuel x = Some l -> In u l ->
  exists before below after,
    l = before ++ u :: below ++ after /\
    downline s fuel (id u) = Some below.
Proof.
  revert x l. induction fuel as [|fuel IH]; intros x l H Hu; [discriminate|].
  simpl in H. destruct (gather_block _ _ _ u H Hu)
    as (c & lc & before & after & Hc & Hf & Hin & ->).
  destruct Hin as [<-|Hin].
  - exists before, lc, after. split; [reflexivity|].
    apply (downline_more_fuel s fuel (S fuel)); [lia|exact Hf].
  - destruct (IH (id c) lc Hf Hin) as (b1 & below & a1 & -> & Hbelow).
    exists (before ++ c :: b1), below, (a1 ++ after). split.
    + repeat (rewrite <- app_assoc || rewrite <- app_comm_cons).
      reflexivity.
    + apply (downline_more_fuel s fuel (S fuel)); [lia|exact Hbelow].
Qed.
End Tree.

Lemma scenarioStore_ok : store_ok scenarioStore.
Proof.
  unfold scenarioStore.
  repeat apply createClientWithPayment_store_ok. exact initialStore_ok.
Qed.

Lemma scenarioStore_acyclic : acyclic scenarioStore.
Proof.
  intros k u Hin. exists 4. vm_compute in Hin.
  repeat (destruct Hin as [Heq|Hin]; [injection Heq as <- <-; reflexivity|]).
  contradiction.
Qed.

Lemma gather_None (f : User -> option (list User)) (cs acc : list User)
    (c : User) :
  In c cs -> f c = None -> gather f cs acc = None.
Proof.
  revert acc. induction cs as [|c' cs IH]; intros acc Hin Hc; [contradiction|].
  simpl. destruct Hin as [->|Hin]; [rewrite Hc; reflexivity|].
  destruct (f c'); [apply IH; assumption|reflexivity].
Qed.

(** The traversal of a node that lies on a cycle never ends. *)
Lemma downline_cycle_None (s : Store) (x : string) (n : nat) :
  store_ok s -> ancestor s (S n) x = Some x ->
  forall fuel, downline s fuel x = None.
Proof.
  intros Hok Hcycle fuel.
  revert x Hcycle. induction fuel as [|fuel IH]; intros x Hcycle;
    [reflexivity|].
  replace (S n) with (n + 1) in Hcycle by lia.
  rewrite ancestor_add in Hcycle.
  destruct (ancestor s n x) as [z|] eqn:Ez; [|discriminate].
  simpl in Hcycle.
  destruct (JsMap.get s z) as [u|] eqn:Eu; [|discriminate].
  destruct (parentId u) as [p|] eqn:Ep; [|discriminate].
  injection Hcycle as ->.
  assert (Hu : In u (JsMap.values s)).
  { apply in_map_iff. exists (z, u). split; [reflexivity|].
    apply get_stored. exact Eu. }
  assert (Hid : id u = z).
  { apply (proj2 Hok). apply get_stored. exact Eu. }
  simpl. apply gather_None with (c := u).
  - apply in_childrenOf. split; assumption.
  - apply IH. rewrite Hid.
    change (S n) with (1 + n). rewrite ancestor_add. simpl.
    rewrite Eu, Ep. exact Ez.
Qed.

(** Two children of a node that is not on a cycle have nothing in common
    below them. *)
Lemma blocks_disjoint_local (s : Store) (x : string) (c1 c2 u : User) :
  store_ok s ->
  (forall n, ancestor s (S n) x <> Some x) ->
  In c1 (childrenOf s x) -> In c2 (childrenOf s x) ->
  u = c1 \/ descendant s (id c1) u ->
  u = c2 \/ descendant s (id c2) u ->
  c1 = c2.
Proof.
  intros Hok Hx H1 H2 Hu1 Hu2.
  apply in_childrenOf in H1. destruct H1 as [Hc1 Hp1].
  apply in_childrenOf in H2. destruct H2 as [Hc2 Hp2].
  assert (Hup : forall c, u = c \/ descendant s (id c) u ->
                          exists n, ancestor s n (id u) = Some (id c)).
  { intros c [->|Hd]; [exists 0; reflexivity|].
    apply (descendant_ancestor s Hok) in Hd. destruct Hd as [n Hn].
    exists (S n). exact Hn. }
  destruct (Hup c1 Hu1) as [n1 Hn1]. destruct (Hup c2 Hu2) as [n2 Hn2].
  assert (Hcase : forall a b ca cb,
            In ca (JsMap.values s) -> parentId ca = Some x ->
            In cb (JsMap.values s) -> parentId cb = Some x ->
            ancestor s a (id u) = Some (id ca) ->
            ancestor s (a + b) (id u) = Some (id cb) -> ca = cb).
  { intros a b ca cb Hca Hpa Hcb Hpb Ha Hab.
    rewrite ancestor_add, Ha in Hab. destruct b as [|b].
    - simpl in Hab. injection Hab as Hid.
      apply (stored_same_id s Hok); assumption.
    - exfalso. rewrite (ancestor_child s Hok ca x b Hca Hpa) in Hab.
      apply (Hx b).
      replace (S b) with (b + 1) by lia.
      rewrite ancestor_add, Hab.
      rewrite (ancestor_child s Hok cb x 0 Hcb Hpb). reflexivity. }
  destruct (Nat.le_ge_cases n1 n2) as [Hle|Hle].
  - apply (Hcase n1 (n2 - n1) c1 c2); try assumption.
    replace (n1 + (n2 - n1)) with n2 by lia. exact Hn2.
  - symmetry. apply (Hcase n2 (n1 - n2) c2 c1); try assumption.
    replace (n2 + (n1 - n2)) with n1 by lia. exact Hn1.
Qed.

(** Whatever the traversal returns, on any store, has no duplicate. *)
Lemma downline_NoDup_any (s : Store) (fuel : nat) (x : string) (l : list User) :
  store_ok s -> downline s fuel x = Some l -> NoDup l.
Proof.
  intros Hok. revert x l.
  induction fuel as [|fuel IH]; intros x l H; [discriminate|].
  assert (Hx : forall n, ancestor s (S n) x <> Some x).
  { intros n Hn. rewrite (downline_cycle_None s x n Hok Hn (S fuel)) in H.
    discriminate. }
  simpl in H. revert H. apply gather_NoDup.
  - apply (NoDup_childrenOf s Hok).
  - intros c lc Hc Hf. constructor; [|apply (IH (id c) lc Hf)].
    intros Hin. apply (downline_In s fuel (id c) lc Hf) in Hin.
    apply (descendant_ancestor s Hok) in Hin. destruct Hin as [n Hn].
    rewrite (downline_cycle_None s (id c) n Hok Hn fuel) in Hf. discriminate.
  - intros c1 c2 l1 l2 u H1 H2 Hne Hf1 Hf2 Hu1 Hu2. apply Hne.
    apply (blocks_disjoint_local s x c1 c2 u Hok Hx H1 H2).
    + destruct Hu1 as [<-|Hu1]; [left; reflexivity|].
      right. apply (downline_In s fuel (id c1) l1 Hf1). exact Hu1.
    + destruct Hu2 as [<-|Hu2]; [left; reflexivity|].
      right. apply (downline_In s fuel (id c2) l2 Hf2). exact Hu2.
Qed.

Lemma descendant_stored (s : Store) (x : string) (u : User) :
  descendant s x u -> In u (JsMap.values s).
Proof. intros H. destruct H; assumption. Qed.

(** A returned downline has at most as many entries as the store. *)
Lemma downline_length (s : Store) (fuel : nat) (x : string) (l : list User) :
  store_ok s -> downline s fuel x = Some l -> List.length l <= List.length s.
Proof.
  intros Hok H.
  replace (List.length s) with (List.length (JsMap.values s))
    by (unfold JsMap.values; apply length_map).
  apply NoDup_incl_length; [apply (downline_NoDup_any s fuel x l Hok H)|].
  intros u Hu. apply (downline_In s fuel x l H) in Hu.
  exact (descendant_stored s x u Hu).
Qed.

Section GatherL.
Variable maxSpread : nat.
Variable fL : User -> Outcome (list User).
Variable fP : User -> option (list User).

Lemma gatherL_sound (cs acc l : list User) :
  (forall c cd, In c cs -> fL c = Ok cd -> fP c = Some cd) ->
  gatherL maxSpread fL cs acc = Ok l -> gather fP cs acc = Some l.
Proof.
  revert acc. induction cs as [|c cs IH]; intros acc Hf; simpl.
  - intros H. injection H as <-. reflexivity.
  - destruct (fL c) as [cd| |] eqn:Ec; try discriminate.
    rewrite (Hf c cd (or_introl eq_refl) Ec).
    destruct (Nat.leb (List.length cd) maxSpread); [|discriminate].
    rewrite <- app_assoc. simpl. apply IH.
    intros c' cd' Hin. apply Hf. right. exact Hin.
Qed.

Lemma gatherL_Ok_children (cs acc l : list User) :
  gatherL maxSpread fL cs acc = Ok l ->
  forall c, In c cs ->
    exists cd, fL c = Ok cd /\ List.length cd <= maxSpread.
Proof.
  revert acc. induction cs as [|c cs IH]; intros acc H c' Hin; [contradiction|].
  simpl in H. destruct (fL c) as [cd| |] eqn:Ec; try discriminate.
  destruct (Nat.leb (List.length cd) maxSpread) eqn:El; [|discriminate].
  destruct Hin as [<-|Hin].
  - exists cd. split; [exact Ec|]. apply Nat.leb_le. exact El.
  - apply (IH _ H c' Hin).
Qed.

Lemma gatherL_small (cs acc l : list User) :
  (forall c cd, In c cs -> fP c = Some cd ->
                fL c = Ok cd /\ List.length cd <= maxSpread) ->
  gather fP cs acc = Some l -> gatherL maxSpread fL cs acc = Ok l.
Proof.
  revert acc. induction cs as [|c cs IH]; intros acc Hf; simpl.
  - intros H. injection H as <-. reflexivity.
  - destruct (fP c) as [cd|] eqn:Ec; [|discriminate].
    destruct (Hf c cd (or_introl eq_refl) Ec) as [HL Hlen]. rewrite HL.
    apply Nat.leb_le in Hlen. rewrite Hlen.
    rewrite <- app_assoc. simpl. apply IH.
    intros c' cd' Hin. apply Hf. right. exact Hin.
Qed.

Lemma gatherL_overflow (cs acc : list User) (c : User) :
  (forall c', In c' cs ->
     (exists cd, fL c' = Ok cd) \/
     fL c' = Throw "Maximum call stack size exceeded") ->
  In c cs ->
  (fL c = Throw "Maximum call stack size exceeded" \/
   exists cd, fL c = Ok cd /\ maxSpread < List.length cd) ->
  gatherL maxSpread fL cs acc = Throw "Maximum call stack size exceeded".
Proof.
  revert acc. induction cs as [|c' cs IH]; intros acc Hall Hin Hc;
    [contradiction|]. simpl.
  destruct Hin as [->|Hin].
  - destruct Hc as [-> |(cd & -> & Hlen)]; [reflexivity|].
    apply Nat.leb_gt in Hlen. rewrite Hlen. reflexivity.
  - destruct (Hall c' (or_introl eq_refl)) as [[cd ->]| ->]; [|reflexivity].
    destruct (Nat.leb (List.length cd) maxSpread); [|reflexivity].
    apply IH; try assumption. intros y Hy. apply Hall. right. exact Hy.
Qed.

Lemma gatherL_no_throw (cs acc : list User) :
  (forall c, In c cs -> forall message, fL c <> Throw message) ->
  (forall c cd, In c cs -> fL c = Ok cd -> List.length cd <= maxSpread) ->
  forall message, gatherL maxSpread fL cs acc <> Throw message.
Proof.
  revert acc. induction cs as [|c cs IH]; intros acc Hnt Hlen message;
    simpl; [discriminate|].
  destruct (fL c) as [cd|m|] eqn:Ec.
  - pose proof (Hlen c cd (or_introl eq_refl) Ec) as Hle.
    apply Nat.leb_le in Hle. rewrite Hle. apply IH.
    + intros y Hy. apply Hnt. right. exact Hy.
    + intros y cd' Hy. apply Hlen. right. exact Hy.
  - exfalso. exact (Hnt c (or_introl eq_refl) m Ec).
  - discriminate.
Qed.

Lemma gatherL_returns_or_throws (cs acc l : list User) :
  (forall c cd, In c cs -> fP c = Some cd ->
     fL c = Ok cd \/ fL c = Throw "Maximum call stack size exceeded") ->
  gather fP cs acc = Some l ->
  gatherL maxSpread fL cs acc = Ok l \/
  gatherL maxSpread fL cs acc = Throw "Maximum call stack size exceeded".
Proof.
  revert acc. induction cs as [|c cs IH]; intros acc Hf; simpl.
  - intros H. injection H as <-. left. reflexivity.
  - destruct (fP c) as [cd|] eqn:Ec; [|discriminate].
    destruct (Hf c cd (or_introl eq_refl) Ec) as [-> | ->];
      [|intros _; right; reflexivity].
    destruct (Nat.leb (List.length cd) maxSpread);
      [|intros _; right; reflexivity].
    rewrite <- app_assoc. simpl. apply IH.
    intros c' cd' Hin. apply Hf. right. exact Hin.
Qed.
End GatherL.

Lemma downlineL_sound (maxSpread : nat) (s : Store) (fuel : nat) (x : string)
    (l : list User) :
  downlineL maxSpread s fuel x = Ok l -> downline s fuel x = Some l.
Proof.
  revert x l. induction fuel as [|fuel IH]; intros x l H; [discriminate|].
  simpl in *. revert H. apply gatherL_sound.
  intros c cd _. apply IH.
Qed.

Lemma downlineL_small (maxSpread : nat) (s : Store) (fuel : nat) (x : string)
    (l : list User) :
  (forall y f l', downline s f y = Some l' -> List.length l' <= maxSpread) ->
  downline s fuel x = Some l -> downlineL maxSpread s fuel x = Ok l.
Proof.
  intros Hsmall. revert x l.
  induction fuel as [|fuel IH]; intros x l H; [discriminate|].
  simpl in *. revert H. apply gatherL_small.
  intros c cd _ Hc. split; [apply IH; exact Hc|].
  apply (Hsmall (id c) fuel cd Hc).
Qed.

Lemma downlineL_returns_or_throws (maxSpread : nat) (s : Store) (fuel : nat)
    (x : string) (l : list User) :
  downline s fuel x = Some l ->
  downlineL maxSpread s fuel x = Ok l \/
  downlineL maxSpread s fuel x = Throw "Maximum call stack size exceeded".
Proof.
  revert x l. induction fuel as [|fuel IH]; intros x l H; [discriminate|].
  simpl in *. revert H. apply gatherL_returns_or_throws.
  intros c cd _ Hc. apply IH. exact Hc.
Qed.

Lemma downlineL_no_throw (maxSpread : nat) (s : Store) :
  store_ok s -> List.length s <= maxSpread ->
  forall fuel x message, downlineL maxSpread s fuel x <> Throw message.
Proof.
  intros Hok Hsize. induction fuel as [|fuel IH]; intros x message;
    [discriminate|].
  simpl. apply gatherL_no_throw.
  - intros c _ m. apply IH.
  - intros c cd _ Hc. apply downlineL_sound in Hc.
    pose proof (downline_length s fuel (id c) cd Hok Hc). lia.
Qed.

(** C9, where it fails. On a store without cycles, when some child of [x]
    has more descendants than a call can spread, [getClientDownline] returns
    no downline for [x]: with fuel enough for the depth of the tree it
    throws the engine's [RangeError], out of [downline.push(...childDownline)],
    and with less it has not returned. *)
Theorem getClientDownline_overflows
    (maxSpread : nat) (s : Store) (x : string) (c : User) (below : list User) :
  store_ok s -> acyclic s ->
  In c (childrenOf s x) ->
  NoDup below ->
  (forall u, In u below -> descendant s (id c) u) ->
  maxSpread < List.length below ->
  (forall fuel l s', getClientDownline maxSpread fuel x s <> (Ok l, s')) /\
  exists fuel,
    forall fuel', fuel <= fuel' ->
      getClientDownline maxSpread fuel' x s
      = (Throw "Maximum call stack size exceeded", s).
Proof.
  intros Hok Hacyc Hc Hnd Hbelow Hbig.
  assert (Hlong : forall f cd, downline s f (id c) = Some cd ->
                               maxSpread < List.length cd).
  { intros f cd Hcd.
    assert (List.length below <= List.length cd); [|lia].
    apply NoDup_incl_length; [exact Hnd|].
    intros u Hu. apply (downline_In s f (id c) cd Hcd). apply Hbelow. exact Hu. }
  split.
  - intros fuel l s' H. rewrite getClientDownline_run in H.
    injection H as H _. destruct fuel as [|fuel]; [discriminate|].
    simpl in H.
    destruct (gatherL_Ok_children maxSpread _ _ _ _ H c Hc) as (cd & Hcd & Hle).
    apply downlineL_sound in Hcd. pose proof (Hlong fuel cd Hcd). lia.
  - destruct (downline_terminates s Hok Hacyc) as [fuel Hfuel].
    exists (S fuel). intros fuel' Hle. rewrite getClientDownline_run.
    destruct fuel' as [|f]; [lia|]. f_equal. simpl.
    assert (Hall : forall y, exists l, downline s f y = Some l).
    { intros y. destruct (Hfuel y) as [l Hl]. exists l.
      apply (downline_more_fuel s fuel f y l); [lia|exact Hl]. }
    apply gatherL_overflow with (c := c); [|exact Hc|].
    + intros c' _. destruct (Hall (id c')) as [l Hl].
      destruct (downlineL_returns_or_throws maxSpread s f (id c') l Hl)
        as [H|H]; [left; exists l; exact H|right; exact H].
    + destruct (Hall (id c)) as [l Hl].
      destruct (downlineL_returns_or_throws maxSpread s f (id c) l Hl)
        as [H|H]; [right; exists l|left; exact H].
      split; [exact H|]. apply (Hlong f l Hl).
Qed.

Lemma getClientDownline_overflows_witness :
  map id (childrenOf scenarioStore "A") = ["B"; "C"] /\
  (forall fuel l s',
     getClientDownline 1 fuel "A" scenarioStore <> (Ok l, s')) /\
  exists fuel,
    forall fuel', fuel <= fuel' ->
      getClientDownline 1 fuel' "A" scenarioStore
      = (Throw "Maximum call stack size exceeded", scenarioStore).
Proof.
  split; [reflexivity|].
  apply (getClientDownline_overflows 1 scenarioStore "A"
           (nth 0 (childrenOf scenarioStore "A") adminUser)
           (childrenOf scenarioStore "B")
           scenarioStore_ok scenarioStore_acyclic).
  - left. reflexivity.
  - apply (NoDup_childrenOf scenarioStore scenarioStore_ok).
  - intros u Hu. apply in_childrenOf in Hu. destruct Hu as [Hu Hp].
    apply desc_child; [exact Hu|exact Hp].
  - vm_compute. lia.
Defined.

(** X20. On any store, whatever [getClientDownline] returns for [x] is
    exactly the nodes that descend from [x], each once, in pre-order (every
    node followed at once by its own descendants), and the store is as it
    was. On a store without cycles that holds no more nodes than a call can
    spread, it does return, given fuel enough for the depth of the tree. *)
Theorem getClientDownline_returns_descendants (s : Store) :
  store_ok s ->
  (forall maxSpread fuel x l s',
     getClientDownline maxSpread fuel x s = (Ok l, s') ->
     s' = s /\
     NoDup l /\
     (forall u, In u l <-> descendant s x u) /\
     (forall u, In u l ->
        exists before below after,
          l = before ++ u :: below ++ after /\
          forall v, In v below <-> descendant s (id u) v)) /\
  (acyclic s ->
   forall maxSpread x, List.length s <= maxSpread ->
     exists fuel l,
       forall fuel', fuel <= fuel' ->
         getClientDownline maxSpread fuel' x s = (Ok l, s)).
Proof.
  intros Hok. split.
  - intros maxSpread fuel x l s' H. rewrite getClientDownline_run in H.
    injection H as H <-. apply downlineL_sound in H.
    split; [reflexivity|].
    split; [apply (downline_NoDup_any s fuel x l Hok H)|].
    split; [apply (downline_In s fuel x l H)|].
    intros u Hu.
    destruct (downline_preorder s fuel x l u H Hu)
      as (before & below & after & Heq & Hbelow).
    exists before, below, after. split; [exact Heq|].
    apply (downline_In s fuel (id u) below Hbelow).
  - intros Hacyc maxSpread x Hsize.
    destruct (downline_terminates s Hok Hacyc) as [fuel Hfuel].
    destruct (Hfuel x) as [l Hl]. exists fuel, l.
    intros fuel' Hle. rewrite getClientDownline_run. f_equal.
    apply downlineL_small.
    + intros y f l' Hl'. pose proof (downline_length s f y l' Hok Hl'). lia.
    + apply (downline_more_fuel s fuel fuel' x l Hle Hl).
Qed.

Lemma getClientDownline_returns_descendants_witness :
  exists fuel l,
    (forall fuel', fuel <= fuel' ->
       getClientDownline 7 fuel' "A" scenarioStore = (Ok l, scenarioStore)) /\
    NoDup l /\
    map id l = ["B"; "D"; "E"; "C"; "F"; "G"].
Proof.
  destruct (getClientDownline_returns_descendants scenarioStore
              scenarioStore_ok) as [Hsound Hreturns].
  destruct (Hreturns scenarioStore_acyclic 7 "A") as (fuel & l & Hrun).
  { vm_compute. lia. }
  exists fuel, l. split; [exact Hrun|].
  pose proof (Hrun (3 + fuel) (Nat.le_add_l fuel 3)) as H.
  split; [exact (proj1 (proj2 (Hsound 7 (3 + fuel) "A" l scenarioStore H)))|].
  rewrite getClientDownline_run in H. injection H as H.
  vm_compute in H. rewrite <- H. reflexivity.
Defined.

(* ------------------------------------------------------------------ *)
(** ** Lookups after a write *)

Lemma JsMap_get_append (V : Type) (m : JsMap.t V) (k x : string) (v : V) :
  JsMap.get (m ++ [(k, v)]) x
  = match JsMap.get m x with
    | Some y => Some y
    | None => if k =? x then Some v else None
    end.
Proof.
  induction m as [|[k' v'] m IH]; simpl; [reflexivity|].
  destruct (k' =? x); [reflexivity|exact IH].
Qed.

Lemma values_append (s : Store) (k : string) (u : User) :
  JsMap.values (s ++ [(k, u)]) = JsMap.values s ++ [u].
Proof. unfold JsMap.values. rewrite map_app. reflexivity. Qed.

Lemma childrenOf_append (s : Store) (k : string) (u : User) (parent : string) :
  childrenOf (s ++ [(k, u)]) parent
  = childrenOf s parent ++ (if strict_eq (parentId u) parent then [u] else []).
Proof.
  unfold childrenOf. rewrite values_append, filter_app. simpl.
  destruct (strict_eq (parentId u) parent); reflexivity.
Qed.

Lemma clientsOf_append (s : Store) (k : string) (u : User) :
  clientsOf (s ++ [(k, u)])
  = clientsOf s ++ (if role u =? "client" then [u] else []).
Proof.
  unfold clientsOf. rewrite values_append, filter_app. simpl.
  destruct (role u =? "client"); reflexivity.
Qed.

Lemma in_values_stored (s : Store) (u : User) :
  In u (JsMap.values s) <-> exists k, In (k, u) s.
Proof.
  unfold JsMap.values. rewrite in_map_iff. split.
  - intros ([k v] & Hv & Hin). simpl in Hv. subst v. exists k. exact Hin.
  - intros [k Hin]. exists (k, u). auto.
Qed.

(* ------------------------------------------------------------------ *)
(** ** The tree invariants under one more node *)

Lemma ancestor_append_old (s : Store) (k : string) (u : User) :
  resolves s -> JsMap.get s k = None ->
  forall n x, JsMap.get s x <> None -> ancestor s n x = None ->
              ancestor (s ++ [(k, u)]) n x = None.
Proof.
  intros Hres Hfresh. induction n as [|n IH]; intros x Hx Hn; [discriminate|].
  simpl in *. rewrite JsMap_get_append.
  destruct (JsMap.get s x) as [u0|] eqn:Ex; [|contradiction].
  destruct (parentId u0) as [p|] eqn:Ep; [|reflexivity].
  apply IH; [|exact Hn].
  apply (Hres u0 p); [|exact Ep].
  apply in_values_stored. exists x. apply get_stored. exact Ex.
Qed.

(** Appending a client under a stored node at a slot that was free, or
    unattached, keeps every invariant. *)
Lemma tree_ok_append (s : Store) (u : User) :
  tree_ok s ->
  JsMap.get s (id u) = None ->
  id u <> "" ->
  role u = "client" ->
  (parentId u = None /\ position u = None) \/
  (exists p pos, parentId u = Some p /\ position u = Some (positionName pos) /\
                 In pos (available s p) /\ JsMap.get s p <> None) ->
  tree_ok (s ++ [(id u, u)]).
Proof.
  intros [Hok Hslots Hplaced Hres Hids Hleaf Hacyc] Hfresh Hne Hrole Hshape.
  assert (Hnoref : forall v, In v (JsMap.values s) -> parentId v <> Some (id u)).
  { intros v Hv Hp. apply (Hres v (id u) Hv Hp). exact Hfresh. }
  assert (Hself : strict_eq (parentId u) (id u) = false).
  { destruct Hshape as [[-> _]|(p & pos & -> & _ & _ & Hp)]; [reflexivity|].
    simpl. destruct (String.eqb_spec p (id u)) as [->|]; [contradiction|].
    reflexivity. }
  split.
  - rewrite <- (JsMap_set_fresh User s (id u) u Hfresh).
    apply store_ok_set. exact Hok.
  - intros parent pos. rewrite at_slot_append.
    destruct Hshape as [[_ ->]|(p & q & -> & -> & Hfree & _)]; simpl.
    + rewrite andb_false_r, app_nil_r. apply Hslots.
    + destruct (String.eqb_spec p parent) as [->|]; simpl.
      2:{ rewrite app_nil_r. apply Hslots. }
      destruct (String.eqb_spec (positionName q) (positionName pos)) as [He|].
      2:{ rewrite app_nil_r. apply Hslots. }
      apply positionName_inj in He. subst q. apply in_available in Hfree.
      rewrite (at_slot_occupies s parent pos Hfree). simpl. lia.
  - intros v Hv. rewrite values_append in Hv. apply in_app_or in Hv.
    destruct Hv as [Hv|[<-|[]]]; [apply Hplaced; exact Hv|].
    destruct Hshape as [H|(p & pos & Hp & Hpos & _)];
      [left; exact H|right; exists p, pos; split; assumption].
  - intros v p Hv Hp. rewrite JsMap_get_append.
    rewrite values_append in Hv. apply in_app_or in Hv.
    assert (Hold : JsMap.get s p <> None).
    { destruct Hv as [Hv|[<-|[]]]; [apply (Hres v p Hv Hp)|].
      destruct Hshape as [[Hnone _]|(p' & pos & Hp' & _ & _ & Hget)];
        congruence. }
    destruct (JsMap.get s p); [discriminate|contradiction].
  - intros c Hc. rewrite clientsOf_append in Hc. apply in_app_or in Hc.
    destruct Hc as [Hc|Hc]; [apply Hids; exact Hc|].
    destruct (role u =? "client"); [|contradiction].
    destruct Hc as [<-|[]]. exact Hne.
  - intros _. exists u. split.
    + rewrite clientsOf_append, Hrole. simpl. apply in_or_app.
      right. left. reflexivity.
    + rewrite childrenOf_append, Hself, app_nil_r.
      destruct (childrenOf s (id u)) as [|v l] eqn:E; [reflexivity|].
      exfalso. assert (Hv : In v (childrenOf s (id u)))
        by (rewrite E; left; reflexivity).
      apply in_childrenOf in Hv. destruct Hv as [Hv Hp].
      exact (Hnoref v Hv Hp).
  - intros k0 u0 Hin. apply in_app_or in Hin. destruct Hin as [Hin|[Heq|[]]].
    + destruct (Hacyc k0 u0 Hin) as [n Hn]. exists n.
      apply ancestor_append_old; try assumption.
      assert (Hv : In u0 (JsMap.values s))
        by (apply in_values_stored; exists k0; exact Hin).
      rewrite <- (proj2 Hok k0 u0 Hin), (stored_get s Hok u0 Hv). discriminate.
    + injection Heq as <- <-.
      destruct Hshape as [[Hnone _]|(p & pos & Hp & _ & _ & Hget)].
      * exists 1. simpl. rewrite JsMap_get_append, Hfresh, String.eqb_refl, Hnone.
        reflexivity.
      * destruct (JsMap.get s p) as [u1|] eqn:E1; [|contradiction].
        destruct (Hacyc p u1 (get_stored s p u1 E1)) as [n Hn].
        exists (S n). simpl.
        rewrite JsMap_get_append, Hfresh, String.eqb_refl, Hp.
        apply ancestor_append_old; try assumption. congruence.
Qed.

(** On a tree that satisfies the invariants the search of
    [createClientWithPayment] always ends at a free slot of a stored node:
    its last branch is never taken. *)
Lemma placement_tree_ok (s : Store) (p : string) (adminId : option string) :
  tree_ok s -> p <> "" -> JsMap.get s p <> None ->
  exists p' pos,
    placement s (Some p) adminId = (Some p', Some (positionName pos)) /\
    p' <> "" /\ In pos (available s p') /\ JsMap.get s p' <> None.
Proof.
  intros [Hok _ _ _ Hids Hleaf _] Hne Hget. unfold placement.
  rewrite (truthy_nonempty p Hne).
  destruct (available s p) as [|first rest] eqn:Ea.
  2:{ exists p, first. split; [reflexivity|]. split; [exact Hne|].
      split; [rewrite Ea; left; reflexivity|exact Hget]. }
  apply available_empty in Ea. destruct Ea as [(v & Hv & Hp & _) _].
  destruct Hleaf as (c & Hc & Hnone).
  { exists v. split; [exact Hv|congruence]. }
  destruct (firstOpen s (clientsOf s)) as [[candidate first]|] eqn:Ef.
  - apply firstOpen_some in Ef. destruct Ef as (c' & Hc' & <- & rest & Hav).
    exists (id c'), first. split; [reflexivity|].
    split; [apply Hids; exact Hc'|].
    split; [rewrite Hav; left; reflexivity|].
    assert (Hin : In c' (JsMap.values s)).
    { unfold clientsOf in Hc'. apply filter_In in Hc'. tauto. }
    rewrite (stored_get s Hok c' Hin). discriminate.
  - exfalso. pose proof (proj2 (firstOpen_none s (clientsOf s)) Ef c Hc) as Hfull.
    rewrite available_no_positioned_child in Hfull; [discriminate|].
    intros w Hw Hpw.
    assert (Hin : In w (childrenOf s (id c))) by (apply in_childrenOf; tauto).
    rewrite Hnone in Hin. contradiction.
Qed.

Lemma bind_run (A B : Type) (c : M A) (k : A -> M B) (s s' : Store) (a : A) :
  c s = (Ok a, s') -> bind c k s = k a s'.
Proof. intros H. unfold bind. rewrite H. reflexivity. Qed.

Lemma bind_throw (A B : Type) (c : M A) (k : A -> M B) (s s' : Store)
    (message : string) :
  c s = (Throw message, s') -> bind c k s = (Throw message, s').
Proof. intros H. unfold bind. rewrite H. reflexivity. Qed.

Lemma js_or_truthy (a b : option string) :
  truthy b = true -> truthy (js_or a b) = true.
Proof. intros Hb. unfold js_or. destruct (truthy a) eqn:E; assumption. Qed.

Lemma truthy_Some_nonempty (p : string) : truthy (Some p) = true -> p <> "".
Proof. intros H ->. discriminate. Qed.

(** What [POST /api/clients/create-with-payment] does: it refuses and leaves
    the store alone, or it has checked the session, the confirmation, the
    username and the parent, and answers 201 with what
    [createClientWithPayment] returned. *)
Lemma postCreateWithPayment_cases (session : Session.t)
    (paymentData : PaymentConfirmationRequest) (fx : Effects) (s : Store) :
  (exists resp,
     postCreateWithPayment session paymentData fx s = (Ok resp, s) /\
     (status resp = 400 \/ status resp = 403)) \/
  (exists p parentUser,
     truthy (Session.userId session) = true /\
     Session.role session = Some "admin" /\
     paymentConfirmed paymentData = true /\
     find (fun user => username user =? Client.username (clientData paymentData))
          (JsMap.values s) = None /\
     js_or (Client.parentId (clientData paymentData)) (Session.userId session)
       = Some p /\
     p <> "" /\
     JsMap.get s p = Some parentUser /\
     let placed := placement s (Some p) (Session.userId session) in
     let user := newClient (clientData paymentData) fx
                   (or_null (fst placed)) (or_null (snd placed)) in
     postCreateWithPayment session paymentData fx s
     = (Ok (mkResponse 201
              (JClientMessage (withoutPassword user)
                 "Client created successfully after payment confirmation")),
        JsMap.set (uuid fx) user s)).
Proof.
  unfold postCreateWithPayment, requireAdmin.
  destruct (truthy (Session.userId session)) eqn:Eu; simpl.
  2:{ left. eexists. split; [reflexivity|]. right. reflexivity. }
  destruct (strict_eq (Session.role session) "admin") eqn:Er.
  2:{ left. eexists. split; [reflexivity|]. right. reflexivity. }
  apply strict_eq_true in Er. unfold try_catch.
  destruct (paymentConfirmed paymentData) eqn:Ec; cbn [negb].
  2:{ left. eexists. split; [reflexivity|]. left. reflexivity. }
  erewrite bind_run by (unfold getUserByUsername, bind, users, ret; reflexivity).
  destruct (find _ (JsMap.values s)) as [existing|] eqn:Ef.
  { left. eexists. split; [reflexivity|]. left. reflexivity. }
  pose proof (js_or_truthy (Client.parentId (clientData paymentData))
                (Session.userId session) Eu) as Ht.
  destruct (js_or (Client.parentId (clientData paymentData))
                  (Session.userId session)) as [p|] eqn:Ep; [|discriminate].
  erewrite bind_run
    by (unfold getUserById_opt, getUserById, bind, users, ret; reflexivity).
  destruct (JsMap.get s p) as [parentUser|] eqn:Eg.
  2:{ left. eexists. split; [reflexivity|]. left. reflexivity. }
  right. exists p, parentUser.
  repeat (split; [first [reflexivity | assumption
                        | apply truthy_Some_nonempty; assumption]|]).
  erewrite bind_run by apply createClientWithPayment_run.
  change (Client.parentId (withParentId (clientData paymentData) (Some p)))
    with (Some p).
  replace (js_or (Some p) (Session.userId session)) with (Some p)
    by (unfold js_or; rewrite Ht; reflexivity).
  reflexivity.
Qed.

Lemma initializeAdminUser_empty (fx : Effects) :
  tree_ok (exec (initializeAdminUser fx) (JsMap.empty User)).
Proof.
  unfold exec, initializeAdminUser, bind, users, users_set, JsMap.empty. simpl.
  split.
  - split.
    + simpl. constructor; [intros []|constructor].
    + intros k u [H|[]]. injection H as <- <-. reflexivity.
  - intros parent pos. unfold at_slot, childrenOf. simpl. lia.
  - intros u [<-|[]]. left. split; reflexivity.
  - intros u p [<-|[]]. discriminate.
  - intros c []. 
  - intros (u & [<-|[]] & H). contradiction H. reflexivity.
  - intros k u [H|[]]. injection H as <- <-. exists 1. simpl.
    rewrite String.eqb_refl. reflexivity.
Qed.

Lemma postCreateWithPayment_tree_ok (s : Store) (session : Session.t)
    (paymentData : PaymentConfirmationRequest) (fx : Effects) :
  tree_ok s -> JsMap.get s (uuid fx) = None -> uuid fx <> "" ->
  tree_ok (exec (postCreateWithPayment session paymentData fx) s).
Proof.
  intros Hs Hfresh Hne. unfold exec.
  destruct (postCreateWithPayment_cases session paymentData fx s)
    as [(resp & -> & _)|(p & parentUser & _ & _ & _ & _ & _ & Hp & Hget & Hrun)];
    [exact Hs|].
  cbv zeta in Hrun. rewrite Hrun. cbn [snd].
  destruct (placement_tree_ok s p (Session.userId session) Hs Hp)
    as (p' & pos & -> & Hp' & Hfree & Hget'); [congruence|].
  cbn [fst snd].
  rewrite or_null_positionName,
          (or_null_truthy (Some p') (truthy_nonempty p' Hp')).
  rewrite (JsMap_set_fresh User s (uuid fx) _ Hfresh).
  match goal with |- tree_ok (s ++ [(_, ?u)]) =>
    apply (tree_ok_append s u Hs Hfresh Hne eq_refl) end.
  right. exists p', pos. repeat split; assumption.
Qed.

Lemma grown_tree_ok (s : Store) : grown s -> tree_ok s.
Proof.
  induction 1 as [fx|s session paymentData fx _ IH Hfresh Hne].
  - apply initializeAdminUser_empty.
  - apply postCreateWithPayment_tree_ok; assumption.
Qed.

Lemma grownStore_grown : grown grownStore.
Proof.
  unfold grownStore.
  apply grown_post; [apply grown_post; [apply grown_init|..]|..];
    first [reflexivity | discriminate].
Qed.

(** What the two routes over [createClient] do. *)
Lemma postClients_cases (session : Session.t) (data : Client.t)
    (fx : Effects) (s : Store) :
  (exists resp,
     postClients session data fx s = (Ok resp, s) /\
     (status resp = 400 \/ status resp = 403)) \/
  (exists user,
     find (fun u => username u =? Client.username data) (JsMap.values s)
       = None /\
     id user = uuid fx /\ username user = Client.username data /\
     role user = "client" /\
     postClients session data fx s
     = (Ok (mkResponse 201 (JClient (withoutPassword user))),
        JsMap.set (uuid fx) user s)).
Proof.
  unfold postClients, requireAdmin.
  destruct (truthy (Session.userId session) &&
            strict_eq (Session.role session) "admin").
  2:{ left. eexists. split; [reflexivity|]. right. reflexivity. }
  unfold try_catch.
  erewrite bind_run by (unfold getUserByUsername, bind, users, ret; reflexivity).
  destruct (find _ (JsMap.values s)) as [existing|] eqn:Ef.
  { left. eexists. split; [reflexivity|]. left. reflexivity. }
  match goal with |- context [createClient ?c ?o fx] =>
    pose proof (createClient_run c o fx s) as Hrun end.
  cbv zeta in Hrun.
  destruct (directPosition s _ _) as [position|].
  - erewrite bind_run by exact Hrun. right. eexists.
    split; [reflexivity|]. split; [|split; [|split; [|reflexivity]]];
      reflexivity.
  - erewrite bind_throw by exact Hrun. left. eexists.
    split; [reflexivity|]. left. reflexivity.
Qed.

Lemma postClientsDownline_cases (session : Session.t) (data : Client.t)
    (fx : Effects) (s : Store) :
  (exists resp,
     postClientsDownline session data fx s = (Ok resp, s) /\
     (status resp = 400 \/ status resp = 401 \/ status resp = 403)) \/
  (exists user,
     find (fun u => username u =? Client.username data) (JsMap.values s)
       = None /\
     id user = uuid fx /\ username user = Client.username data /\
     role user = "client" /\
     postClientsDownline session data fx s
     = (Ok (mkResponse 201 (JClient (withoutPassword user))),
        JsMap.set (uuid fx) user s)).
Proof.
  unfold postClientsDownline, requireAuth.
  destruct (truthy (Session.userId session)).
  2:{ left. eexists. split; [reflexivity|]. right. left. reflexivity. }
  unfold try_catch.
  destruct (strict_eq (Session.role session) "client"); cbn [negb].
  2:{ left. eexists. split; [reflexivity|]. right. right. reflexivity. }
  erewrite bind_run by (unfold getUserByUsername, bind, users, ret; reflexivity).
  change (Client.username (withParentId data (Session.userId session)))
    with (Client.username data).
  destruct (find _ (JsMap.values s)) as [existing|] eqn:Ef.
  { left. eexists. split; [reflexivity|]. left. reflexivity. }
  match goal with |- context [createClient ?c ?o fx] =>
    pose proof (createClient_run c o fx s) as Hrun end.
  cbv zeta in Hrun.
  destruct (directPosition s _ _) as [position|].
  - erewrite bind_run by exact Hrun. right. eexists.
    split; [reflexivity|]. split; [|split; [|split; [|reflexivity]]];
      reflexivity.
  - erewrite bind_throw by exact Hrun. left. eexists.
    split; [reflexivity|]. left. reflexivity.
Qed.

Lemma usernames_unique_append (s : Store) (k : string) (u : User) :
  usernames_unique s ->
  find (fun v => username v =? username u) (JsMap.values s) = None ->
  usernames_unique (s ++ [(k, u)]).
Proof.
  unfold usernames_unique. intros Hnd Hfind.
  rewrite values_append, map_app. simpl.
  apply NoDup_app; [exact Hnd|constructor; [intros []|constructor]|].
  intros name Hin [<-|[]]. apply in_map_iff in Hin.
  destruct Hin as (v & Hname & Hv).
  pose proof (find_none _ _ Hfind v Hv) as Hneq. simpl in Hneq.
  rewrite Hname, String.eqb_refl in Hneq. discriminate.
Qed.

(* ------------------------------------------------------------------ *)
(** ** Further properties: capacity *)




(** X3. On every store grown from the constructor by the payment route, a
    node has at most two children, each at left or at right, and no two at
    the same position. *)
Theorem grown_capacity (s : Store) (parent : string) :
  grown s ->
  List.length (childrenOf s parent) <= 2 /\
  (forall pos, List.length (at_slot s parent pos) <= 1) /\
  (forall c, In c (childrenOf s parent) ->
             position c = Some "left" \/ position c = Some "right").
Proof.
  intros Hg. apply grown_tree_ok in Hg.
  destruct Hg as [_ Hslots Hplaced _ _ _ _].
  assert (Hpos : forall c, In c (childrenOf s parent) ->
            position c = Some "left" \/ position c = Some "right").
  { intros c Hc. apply in_childrenOf in Hc. destruct Hc as [Hc Hp].
    destruct (Hplaced c Hc) as [[Hnone _]|(p & pos & _ & ->)]; [congruence|].
    destruct pos; [left|right]; reflexivity. }
  split; [|split; [intros pos; apply Hslots|exact Hpos]].
  rewrite <- (filter_length (fun u => strict_eq (position u) "left")
                            (childrenOf s parent)).
  rewrite (filter_ext_in
             (fun u => negb (strict_eq (position u) "left"))
             (fun u => strict_eq (position u) "right")).
  - pose proof (Hslots parent Left). pose proof (Hslots parent Right).
    unfold at_slot in *. simpl positionName in *. lia.
  - intros c Hc. destruct (Hpos c Hc) as [->| ->]; reflexivity.
Qed.

Lemma grown_capacity_witness :
  List.length (childrenOf grownStore "A") <= 2 /\
  (forall pos, List.length (at_slot grownStore "A" pos) <= 1) /\
  (forall c, In c (childrenOf grownStore "A") ->
             position c = Some "left" \/ position c = Some "right").
Proof. exact (grown_capacity grownStore "A" grownStore_grown). Defined.

(** X4. On every store grown by the payment route a node is stored under
    its own id, either unattached (no parent, no position) or under a stored
    parent with a position, and the parent relation has no cycle. *)
Theorem grown_well_formed (s : Store) :
  grown s ->
  store_ok s /\
  (forall u, In u (JsMap.values s) ->
     (parentId u = None /\ position u = None) \/
     (exists p pos parent,
        parentId u = Some p /\ position u = Some (positionName pos) /\
        JsMap.get s p = Some parent)) /\
  acyclic s.
Proof.
  intros Hg. apply grown_tree_ok in Hg.
  destruct Hg as [Hok _ Hplaced Hres _ _ Hacyc].
  split; [exact Hok|]. split; [|exact Hacyc].
  intros u Hu. destruct (Hplaced u Hu) as [H|(p & pos & Hp & Hpos)];
    [left; exact H|right].
  destruct (JsMap.get s p) as [parent|] eqn:E.
  - exists p, pos, parent. auto.
  - destruct (Hres u p Hu Hp E).
Qed.

Lemma grown_well_formed_witness :
  store_ok grownStore /\ acyclic grownStore /\
  map parentId (JsMap.values grownStore) = [None; Some "A"; Some "B"].
Proof.
  destruct (grown_well_formed grownStore grownStore_grown) as (H1 & _ & H3).
  split; [exact H1|]. split; [exact H3|reflexivity].
Defined.

(* ------------------------------------------------------------------ *)
(** ** Further properties: downline *)

(** X5. On every store grown by the payment route that holds no more nodes
    than a call can spread, [getClientDownline] returns for every node, with
    exactly its descendants, each once. *)
Theorem grown_downline_returns (maxSpread : nat) (s : Store) (x : string) :
  grown s ->
  List.length s <= maxSpread ->
  exists fuel l,
    (forall fuel', fuel <= fuel' ->
       getClientDownline maxSpread fuel' x s = (Ok l, s)) /\
    NoDup l /\
    (forall u, In u l <-> descendant s x u).
Proof.
  intros Hg Hsize. apply grown_tree_ok in Hg.
  destruct Hg as [Hok _ _ _ _ _ Hacyc].
  destruct (downline_terminates s Hok Hacyc) as [fuel Hfuel].
  destruct (Hfuel x) as [l Hl]. exists fuel, l. split; [|split].
  - intros fuel' Hle. rewrite getClientDownline_run. f_equal.
    apply downlineL_small.
    + intros y f l' Hl'. pose proof (downline_length s f y l' Hok Hl'). lia.
    + apply (downline_more_fuel s fuel fuel' x l Hle Hl).
  - apply (downline_NoDup_any s fuel x l Hok Hl).
  - apply (downline_In s fuel x l Hl).
Qed.

Lemma grown_downline_returns_witness :
  exists fuel l,
    (forall fuel', fuel <= fuel' ->
       getClientDownline 3 fuel' "A" grownStore = (Ok l, grownStore)) /\
    NoDup l /\
    (forall u, In u l <-> descendant grownStore "A" u).
Proof.
  apply (grown_downline_returns 3 grownStore "A" grownStore_grown).
  vm_compute. lia.
Defined.

(** X7. When the node [x] lies on a cycle of the parent relation,
    [getClientDownline] never returns a downline for it, whatever the fuel
    and the limit on spread arguments; on a store that holds no more nodes
    than a call can spread nothing is thrown either: the call never
    returns. *)
Theorem getClientDownline_diverges_on_cycle (s : Store) (x : string) (n : nat) :
  store_ok s ->
  ancestor s (S n) x = Some x ->
  forall maxSpread fuel,
    (forall l s', getClientDownline maxSpread fuel x s <> (Ok l, s')) /\
    (List.length s <= maxSpread ->
     getClientDownline maxSpread fuel x s = (Diverge, s)).
Proof.
  intros Hok Hcycle maxSpread fuel. rewrite getClientDownline_run.
  pose proof (downline_cycle_None s x n Hok Hcycle fuel) as Hnone.
  assert (Hnot : forall l, downlineL maxSpread s fuel x <> Ok l).
  { intros l H. apply downlineL_sound in H. congruence. }
  split.
  - intros l s' H. injection H as H _. exact (Hnot l H).
  - intros Hsize. f_equal.
    destruct (downlineL maxSpread s fuel x) as [l|message|] eqn:E.
    + destruct (Hnot l eq_refl).
    + destruct (downlineL_no_throw maxSpread s Hok Hsize fuel x message E).
    + reflexivity.
Qed.

Lemma getClientDownline_diverges_on_cycle_witness :
  ancestor cyclicStore 2 "P" = Some "P" /\
  forall fuel, getClientDownline 3 fuel "P" cyclicStore = (Diverge, cyclicStore).
Proof.
  split; [reflexivity|]. intros fuel.
  refine (proj2 (getClientDownline_diverges_on_cycle cyclicStore "P" 1
                   _ eq_refl 3 fuel) _).
  - unfold cyclicStore. repeat apply createUser_store_ok. exact initialStore_ok.
  - vm_compute. lia.
Defined.

(* ------------------------------------------------------------------ *)
(** ** Further properties: the creation routes *)

(** X6. On a store grown by the payment route, whenever
    [POST /api/clients/create-with-payment] answers 201 the new client is
    appended under a stored parent at a slot of that parent that was free:
    the branch that stores a node without a position is never reached. *)
Theorem grown_payment_places (s s' : Store) (session : Session.t)
    (paymentData : PaymentConfirmationRequest) (fx : Effects)
    (resp : Response) :
  grown s ->
  JsMap.get s (uuid fx) = None ->
  postCreateWithPayment session paymentData fx s = (Ok resp, s') ->
  status resp = 201 ->
  exists user p pos,
    body resp = JClientMessage (withoutPassword user)
                  "Client created successfully after payment confirmation" /\
    s' = s ++ [(uuid fx, user)] /\
    username user = Client.username (clientData paymentData) /\
    parentId user = Some p /\
    position user = Some (positionName pos) /\
    JsMap.get s p <> None /\
    ~ occupies s p pos.
Proof.
  intros Hg Hfresh Hrun H201. apply grown_tree_ok in Hg.
  destruct (postCreateWithPayment_cases session paymentData fx s)
    as [(r & Hr & Hst)|(p & parentUser & _ & _ & _ & _ & _ & Hp & Hget & Hr)].
  { rewrite Hr in Hrun. injection Hrun as <- <-.
    destruct Hst as [Hst|Hst]; rewrite Hst in H201; discriminate. }
  cbv zeta in Hr.
  destruct (placement_tree_ok s p (Session.userId session) Hg Hp)
    as (p' & pos & Hpl & Hp' & Hfree & Hget'); [congruence|].
  rewrite Hpl in Hr. cbn [fst snd] in Hr.
  rewrite or_null_positionName,
          (or_null_truthy (Some p') (truthy_nonempty p' Hp')) in Hr.
  rewrite Hr in Hrun. injection Hrun as <- <-.
  eexists. exists p', pos.
  split; [reflexivity|].
  split; [apply JsMap_set_fresh; exact Hfresh|].
  split; [reflexivity|]. split; [reflexivity|]. split; [reflexivity|].
  split; [exact Hget'|]. apply in_available. exact Hfree.
Qed.

Lemma grown_payment_places_witness :
  exists user p pos,
    exec (postCreateWithPayment adminSession
            (mkPayment (request "d" (Some "A") None) true) (drawn "D"))
         grownStore = grownStore ++ [("D", user)] /\
    parentId user = Some p /\ position user = Some (positionName pos) /\
    JsMap.get grownStore p <> None /\ ~ occupies grownStore p pos.
Proof.
  unfold exec.
  destruct (postCreateWithPayment adminSession
              (mkPayment (request "d" (Some "A") None) true) (drawn "D")
              grownStore) as [o s'] eqn:Hrun.
  pose proof Hrun as Hval. vm_compute in Hval.
  destruct o as [resp| |]; try discriminate Hval.
  assert (H201 : status resp = 201).
  { injection Hval as <- _. reflexivity. }
  destruct (grown_payment_places grownStore s' adminSession _ (drawn "D") resp
              grownStore_grown eq_refl Hrun H201)
    as (user & p & pos & _ & Hs' & _ & Hp & Hpos & Hget & Hfree).
  exists user, p, pos. cbn [snd]. auto.
Defined.

(** X8. Each of the three creation routes always answers, and is atomic on
    the store: it answers 201 and has stored exactly one new client under
    the drawn identifier, or it answers another status and the store is as
    it was. *)
Theorem creation_routes_atomic (s : Store) (session : Session.t)
    (paymentData : PaymentConfirmationRequest) (data : Client.t)
    (fx : Effects) :
  atomic_answer fx s (postCreateWithPayment session paymentData fx s) /\
  atomic_answer fx s (postClients session data fx s) /\
  atomic_answer fx s (postClientsDownline session data fx s).
Proof.
  unfold atomic_answer. split; [|split].
  - destruct (postCreateWithPayment_cases session paymentData fx s)
      as [(r & Hr & Hst)|(p & parentUser & _ & _ & _ & _ & _ & _ & _ & Hr)].
    + exists r, s. split; [exact Hr|]. right. split; [|reflexivity].
      destruct Hst as [-> | ->]; discriminate.
    + cbv zeta in Hr. eexists. eexists. split; [exact Hr|]. left.
      split; [reflexivity|]. eexists. split; [|split].
      3: reflexivity. all: reflexivity.
  - destruct (postClients_cases session data fx s)
      as [(r & Hr & Hst)|(user & _ & Hid & _ & Hrole & Hr)].
    + exists r, s. split; [exact Hr|]. right. split; [|reflexivity].
      destruct Hst as [-> | ->]; discriminate.
    + eexists. eexists. split; [exact Hr|]. left. split; [reflexivity|].
      exists user. auto.
  - destruct (postClientsDownline_cases session data fx s)
      as [(r & Hr & Hst)|(user & _ & Hid & _ & Hrole & Hr)].
    + exists r, s. split; [exact Hr|]. right. split; [|reflexivity].
      destruct Hst as [-> |[-> | ->]]; discriminate.
    + eexists. eexists. split; [exact Hr|]. left. split; [reflexivity|].
      exists user. auto.
Qed.

(** Each creating route is its two halves run on one store. *)
Lemma postClients_in_two_halves (session : Session.t) (data : Client.t)
    (fx : Effects) (s : Store) :
  postClients session data fx s
  = in_two_halves (postClients_check session data)
                  (postClients_finish session data fx) s s.
Proof.
  unfold postClients, postClients_check, postClients_finish, in_two_halves,
    requireAdmin.
  destruct (truthy (Session.userId session) &&
            strict_eq (Session.role session) "admin"); [|reflexivity].
  unfold try_catch.
  erewrite !bind_run
    by (unfold getUserByUsername, bind, users, ret; reflexivity).
  destruct (find _ (JsMap.values s)); reflexivity.
Qed.

Lemma postClientsDownline_in_two_halves (session : Session.t)
    (data : Client.t) (fx : Effects) (s : Store) :
  postClientsDownline session data fx s
  = in_two_halves (postClientsDownline_check session data)
                  (postClientsDownline_finish session data fx) s s.
Proof.
  unfold postClientsDownline, postClientsDownline_check,
    postClientsDownline_finish, in_two_halves, requireAuth.
  destruct (truthy (Session.userId session)); [|reflexivity].
  unfold try_catch.
  destruct (strict_eq (Session.role session) "client"); cbn [negb];
    [|reflexivity].
  change (Client.username (withParentId data (Session.userId session)))
    with (Client.username data).
  erewrite !bind_run
    by (unfold getUserByUsername, bind, users, ret; reflexivity).
  destruct (find _ (JsMap.values s)); reflexivity.
Qed.

Lemma postCreateWithPayment_in_two_halves (session : Session.t)
    (paymentData : PaymentConfirmationRequest) (fx : Effects) (s : Store) :
  postCreateWithPayment session paymentData fx s
  = in_two_halves (postCreateWithPayment_check session paymentData)
                  (postCreateWithPayment_finish session paymentData fx) s s.
Proof.
  unfold postCreateWithPayment, postCreateWithPayment_check,
    postCreateWithPayment_finish, in_two_halves, requireAdmin.
  destruct (truthy (Session.userId session) &&
            strict_eq (Session.role session) "admin"); [|reflexivity].
  unfold try_catch.
  destruct (paymentConfirmed paymentData); cbn [negb]; [|reflexivity].
  erewrite !bind_run
    by (unfold getUserByUsername, bind, users, ret; reflexivity).
  destruct (find _ (JsMap.values s)); [reflexivity|].
  destruct (js_or (Client.parentId (clientData paymentData))
                  (Session.userId session)) as [p|].
  - erewrite !bind_run
      by (unfold getUserById_opt, getUserById, bind, users, ret; reflexivity).
    destruct (JsMap.get s p); reflexivity.
  - erewrite !bind_run by (unfold getUserById_opt, ret; reflexivity).
    reflexivity.
Qed.

(** The first half of a creating route never answers 201 and never writes;
    the second half, when it answers 201, has stored a client with the
    requested username under the drawn identifier, whatever usernames the
    store held. *)
Lemma check_never_201 (check : M (option Response)) (finish : M Response)
    (before after s' : Store) (r : Response) :
  (forall resp t, check before = (Ok (Some resp), t) -> status resp <> 201) ->
  in_two_halves check finish before after = (Ok r, s') ->
  status r = 201 ->
  finish after = (Ok r, s').
Proof.
  intros Hcheck H H201. unfold in_two_halves in H.
  destruct (check before) as [[[resp|]| |] t] eqn:E; try discriminate.
  - injection H as <- <-. destruct (Hcheck resp t eq_refl H201).
  - exact H.
Qed.

Lemma postClients_check_status (session : Session.t) (data : Client.t)
    (s t : Store) (resp : Response) :
  postClients_check session data s = (Ok (Some resp), t) -> status resp <> 201.
Proof.
  unfold postClients_check.
  destruct (truthy (Session.userId session) &&
            strict_eq (Session.role session) "admin").
  2:{ intros H. injection H as <- _. discriminate. }
  unfold try_catch.
  erewrite bind_run
    by (unfold getUserByUsername, bind, users, ret; reflexivity).
  destruct (find _ (JsMap.values s)); intros H; [|discriminate].
  injection H as <- _. discriminate.
Qed.

Lemma postClientsDownline_check_status (session : Session.t) (data : Client.t)
    (s t : Store) (resp : Response) :
  postClientsDownline_check session data s = (Ok (Some resp), t) ->
  status resp <> 201.
Proof.
  unfold postClientsDownline_check.
  destruct (truthy (Session.userId session)).
  2:{ intros H. injection H as <- _. discriminate. }
  unfold try_catch.
  destruct (strict_eq (Session.role session) "client"); cbn [negb].
  2:{ intros H. injection H as <- _. discriminate. }
  erewrite bind_run
    by (unfold getUserByUsername, bind, users, ret; reflexivity).
  destruct (find _ (JsMap.values s)); intros H; [|discriminate].
  injection H as <- _. discriminate.
Qed.

Lemma postCreateWithPayment_check_status (session : Session.t)
    (paymentData : PaymentConfirmationRequest) (s t : Store)
    (resp : Response) :
  postCreateWithPayment_check session paymentData s = (Ok (Some resp), t) ->
  status resp <> 201.
Proof.
  unfold postCreateWithPayment_check.
  destruct (truthy (Session.userId session) &&
            strict_eq (Session.role session) "admin").
  2:{ intros H. injection H as <- _. discriminate. }
  unfold try_catch.
  destruct (paymentConfirmed paymentData); cbn [negb].
  2:{ intros H. injection H as <- _. discriminate. }
  erewrite bind_run
    by (unfold getUserByUsername, bind, users, ret; reflexivity).
  destruct (find _ (JsMap.values s)).
  { intros H. injection H as <- _. discriminate. }
  destruct (js_or (Client.parentId (clientData paymentData))
                  (Session.userId session)) as [p|].
  - erewrite bind_run
      by (unfold getUserById_opt, getUserById, bind, users, ret; reflexivity).
    destruct (JsMap.get s p); intros H; [discriminate|].
    injection H as <- _. discriminate.
  - erewrite bind_run by (unfold getUserById_opt, ret; reflexivity).
    intros H. injection H as <- _. discriminate.
Qed.

Lemma createClient_finish_201 (client : Client.t) (other : option string)
    (fx : Effects) (s s' : Store) (r : Response) :
  try_catch
    (created <- createClient client other fx ;;
     ret (mkResponse 201 (JClient (withoutPassword created))))
    (fun message => ret (mkResponse 400 (JMessage message))) s = (Ok r, s') ->
  status r = 201 ->
  exists user, s' = JsMap.set (uuid fx) user s /\ id user = uuid fx /\
               username user = Client.username client.
Proof.
  unfold try_catch. pose proof (createClient_run client other fx s) as Hrun.
  cbv zeta in Hrun. destruct (directPosition s _ _) as [position|].
  - erewrite bind_run by exact Hrun. intros H _. injection H as _ <-.
    eexists. split; [reflexivity|]. split; reflexivity.
  - erewrite bind_throw by exact Hrun. intros H H201.
    injection H as <- _. discriminate.
Qed.

Lemma get_in_values (s : Store) (k : string) (u : User) :
  JsMap.get s k = Some u -> In u (JsMap.values s).
Proof.
  intros H. apply in_values_stored. exists k. apply get_stored. exact H.
Qed.

Lemma NoDup_map_injective (l : list User) (u v : User) :
  NoDup (map username l) -> In u l -> In v l -> username u = username v ->
  u = v.
Proof.
  induction l as [|w l IH]; intros Hnd Hu Hv Heq; [contradiction|].
  simpl in Hnd. inversion Hnd as [|? ? Hnotin Hnd']; subst.
  destruct Hu as [->|Hu], Hv as [->|Hv]; try reflexivity.
  - exfalso. apply Hnotin. rewrite Heq. apply in_map. exact Hv.
  - exfalso. apply Hnotin. rewrite <- Heq. apply in_map. exact Hu.
  - apply IH; assumption.
Qed.

Lemma two_stored_same_username (s : Store) (u1 u2 : User) (k1 k2 : string) :
  k1 <> k2 -> id u1 = k1 -> id u2 = k2 -> username u1 = username u2 ->
  let s2 := JsMap.set k2 u2 (JsMap.set k1 u1 s) in
  In u1 (JsMap.values s2) /\ In u2 (JsMap.values s2) /\
  ~ usernames_unique s2.
Proof.
  intros Hne H1 H2 Hname s2.
  assert (Hu1 : In u1 (JsMap.values s2)).
  { apply (get_in_values s2 k1). unfold s2.
    rewrite (JsMap_get_set_other User _ k2 k1 u2 Hne).
    apply JsMap_get_set_same. }
  assert (Hu2 : In u2 (JsMap.values s2)).
  { apply (get_in_values s2 k2). apply JsMap_get_set_same. }
  split; [exact Hu1|]. split; [exact Hu2|].
  intros Huniq.
  pose proof (NoDup_map_injective _ u1 u2 Huniq Hu1 Hu2 Hname) as Heq.
  apply Hne. rewrite <- H1, <- H2, Heq. reflexivity.
Qed.

(** X9. The username check of a creating route is not atomic with the
    insert. When a second request with the same username arrives before the
    first one's password is hashed (its check runs on the store [s]) and
    finishes after the first has stored its client, and both are answered
    201, the store holds two users with that username. This holds for each
    of the three creating routes. *)
Theorem overlapping_requests_share_username (s : Store)
    (session1 session2 : Session.t) (data1 data2 : Client.t)
    (fx1 fx2 : Effects) :
  let overlap (check1 check2 : M (option Response))
              (finish1 finish2 : M Response) :=
    forall r1 s1 r2 s2,
      in_two_halves check1 finish1 s s = (Ok r1, s1) -> status r1 = 201 ->
      in_two_halves check2 finish2 s s1 = (Ok r2, s2) -> status r2 = 201 ->
      (exists u1 u2,
         In u1 (JsMap.values s2) /\ In u2 (JsMap.values s2) /\
         id u1 = uuid fx1 /\ id u2 = uuid fx2 /\
         username u1 = Client.username data1 /\
         username u2 = Client.username data1) /\
      ~ usernames_unique s2 in
  uuid fx1 <> uuid fx2 ->
  Client.username data1 = Client.username data2 ->
  overlap (postClients_check session1 data1)
          (postClients_check session2 data2)
          (postClients_finish session1 data1 fx1)
          (postClients_finish session2 data2 fx2) /\
  overlap (postClientsDownline_check session1 data1)
          (postClientsDownline_check session2 data2)
          (postClientsDownline_finish session1 data1 fx1)
          (postClientsDownline_finish session2 data2 fx2) /\
  overlap (postCreateWithPayment_check session1 (mkPayment data1 true))
          (postCreateWithPayment_check session2 (mkPayment data2 true))
          (postCreateWithPayment_finish session1 (mkPayment data1 true) fx1)
          (postCreateWithPayment_finish session2 (mkPayment data2 true) fx2).
Proof.
  intros overlap Hne Hname.
  assert (Hend : forall s1 s2 u1 u2,
            s1 = JsMap.set (uuid fx1) u1 s -> id u1 = uuid fx1 ->
            username u1 = Client.username data1 ->
            s2 = JsMap.set (uuid fx2) u2 s1 -> id u2 = uuid fx2 ->
            username u2 = Client.username data2 ->
            (exists v1 v2,
               In v1 (JsMap.values s2) /\ In v2 (JsMap.values s2) /\
               id v1 = uuid fx1 /\ id v2 = uuid fx2 /\
               username v1 = Client.username data1 /\
               username v2 = Client.username data1) /\
            ~ usernames_unique s2).
  { intros s1 s2 u1 u2 -> Hid1 Hn1 -> Hid2 Hn2.
    destruct (two_stored_same_username s u1 u2 (uuid fx1) (uuid fx2)
                Hne Hid1 Hid2) as (Hu1 & Hu2 & Hnot); [congruence|].
    split; [|exact Hnot]. exists u1, u2. repeat split; congruence. }
  split; [|split]; intros r1 s1 r2 s2 H1 H201 H2 H201'.
  - apply check_never_201 in H1;
      [|intros resp t; apply postClients_check_status|exact H201].
    apply check_never_201 in H2;
      [|intros resp t; apply postClients_check_status|exact H201'].
    apply createClient_finish_201 in H1; [|exact H201].
    apply createClient_finish_201 in H2; [|exact H201'].
    destruct H1 as (u1 & Hs1 & Hid1 & Hn1), H2 as (u2 & Hs2 & Hid2 & Hn2).
    exact (Hend s1 s2 u1 u2 Hs1 Hid1 Hn1 Hs2 Hid2 Hn2).
  - apply check_never_201 in H1;
      [|intros resp t; apply postClientsDownline_check_status|exact H201].
    apply check_never_201 in H2;
      [|intros resp t; apply postClientsDownline_check_status|exact H201'].
    apply createClient_finish_201 in H1; [|exact H201].
    apply createClient_finish_201 in H2; [|exact H201'].
    destruct H1 as (u1 & Hs1 & Hid1 & Hn1), H2 as (u2 & Hs2 & Hid2 & Hn2).
    exact (Hend s1 s2 u1 u2 Hs1 Hid1 Hn1 Hs2 Hid2 Hn2).
  - apply check_never_201 in H1;
      [|intros resp t; apply postCreateWithPayment_check_status|exact H201].
    apply check_never_201 in H2;
      [|intros resp t; apply postCreateWithPayment_check_status|exact H201'].
    unfold postCreateWithPayment_finish, try_catch in H1, H2.
    erewrite bind_run in H1 by apply createClientWithPayment_run.
    erewrite bind_run in H2 by apply createClientWithPayment_run.
    injection H1 as _ Hs1. injection H2 as _ Hs2.
    symmetry in Hs1, Hs2.
    exact (Hend s1 s2 _ _ Hs1 eq_refl eq_refl Hs2 eq_refl eq_refl).
Qed.

Lemma overlapping_requests_share_username_witness :
  let first := request "bob" None (Some Left) in
  let second := request "bob" None (Some Right) in
  let s1 := exec (postClients adminSession first (drawn "B")) initialStore in
  let s2 := snd (in_two_halves (postClients_check adminSession second)
                   (postClients_finish adminSession second (drawn "C"))
                   initialStore s1) in
  map username (JsMap.values s2) = ["admin"; "user_bob"; "user_bob"] /\
  ~ usernames_unique s2.
Proof.
  intros first second s1 s2. split; [reflexivity|].
  assert (Hne : uuid (drawn "B") <> uuid (drawn "C")) by discriminate.
  destruct (overlapping_requests_share_username initialStore
              adminSession adminSession first second (drawn "B") (drawn "C")
              Hne eq_refl) as [H _].
  refine (proj2 (H (mkResponse 201 (JClient (withoutPassword
                      (newClient first (drawn "B") (Some "A") (Some "left")))))
                   s1
                   (mkResponse 201 (JClient (withoutPassword
                      (newClient second (drawn "C") (Some "A") (Some "right")))))
                   s2 _ eq_refl _ eq_refl)); reflexivity.
Defined.

(** The payment route refuses the unknown parent ["ghost"]. *)
Lemma postCreateWithPayment_parent_not_found_witness :
  postCreateWithPayment adminSession
    (mkPayment (request "x" (Some "ghost") None) true) (drawn "X") scenarioStore
  = (Ok (mkResponse 400 (JMessage "Parent user not found")), scenarioStore).
Proof.
  apply postCreateWithPayment_parent_not_found; try reflexivity.
  intros p Hp. injection Hp as <-. reflexivity.
Defined.

(** X10. [createClient] throws exactly when the parent it is given has both
    positions occupied, always with the message "Parent already has 2
    children" and with the store as it was; in every other case it returns
    the new client, with the requested username, stored under the drawn
    identifier. *)
Theorem createClient_throws_iff_full
    (s : Store) (client : Client.t) (createdById : option string)
    (fx : Effects) :
  let full :=
    exists p, js_or (Client.parentId client) createdById = Some p /\
              p <> "" /\
              occupies s p Left /\ occupies s p Right in
  (full ->
   createClient client createdById fx s
     = (Throw "Parent already has 2 children", s)) /\
  (forall message s',
     createClient client createdById fx s = (Throw message, s') ->
     full /\ message = "Parent already has 2 children" /\ s' = s) /\
  createClient client createdById fx s <> (Diverge, s) /\
  (~ full ->
   exists user,
     createClient client createdById fx s
       = (Ok user, JsMap.set (uuid fx) user s) /\
     id user = uuid fx /\ role user = "client" /\
     username user = Client.username client /\
     JsMap.get (JsMap.set (uuid fx) user s) (uuid fx) = Some user).
Proof.
  intros full.
  assert (Hcases :
    (full /\ createClient client createdById fx s
              = (Throw "Parent already has 2 children", s)) \/
    (~ full /\ exists user,
        createClient client createdById fx s
          = (Ok user, JsMap.set (uuid fx) user s) /\
        id user = uuid fx /\ role user = "client" /\
        username user = Client.username client)).
  { rewrite createClient_run. unfold full, directPosition.
    destruct (js_or (Client.parentId client) createdById) as [p|] eqn:Ep.
    2:{ right. split; [intros (p & Hp & _); discriminate|].
        eexists. split; [reflexivity|]. repeat split. }
    destruct (truthy (Some p)) eqn:Et.
    2:{ right. split.
        - intros (q & Hq & Hne & _). injection Hq as <-.
          rewrite (truthy_nonempty p Hne) in Et. discriminate.
        - eexists. split; [reflexivity|]. repeat split. }
    destruct (available s p) as [|first rest] eqn:Ea.
    - left. split; [|reflexivity]. exists p.
      split; [reflexivity|]. split; [apply truthy_Some_nonempty; exact Et|].
      apply available_empty. exact Ea.
    - right. split.
      + intros (q & Hq & _ & Hfull). injection Hq as <-.
        apply available_empty in Hfull. congruence.
      + eexists. split; [reflexivity|]. repeat split. }
  destruct Hcases as [[Hfull Hrun]|[Hnot (user & Hrun & Hid & Hrole & Hname)]].
  - split; [intros _; exact Hrun|]. split; [|split].
    + intros message s' H. rewrite Hrun in H. injection H as <- <-. auto.
    + rewrite Hrun. discriminate.
    + intros H. destruct (H Hfull).
  - split; [intros H; destruct (Hnot H)|]. split; [|split].
    + intros message s' H. rewrite Hrun in H. discriminate.
    + rewrite Hrun. discriminate.
    + intros _. exists user. split; [exact Hrun|].
      repeat (split; [assumption|]). apply JsMap_get_set_same.
Qed.

(* ------------------------------------------------------------------ *)
(** ** Further properties: users *)

Lemma in_values_set (s : Store) (k : string) (u : User) :
  In u (JsMap.values (JsMap.set k u s)).
Proof.
  induction s as [|[k' v'] m IH]; simpl; [left; reflexivity|].
  destruct (k' =? k); simpl; [left; reflexivity|right; exact IH].
Qed.

(** X11. The user that [createClientWithPayment], [createClient] (when it
    does not throw) or [createUser] returns is the one [getUserById] finds
    under the drawn identifier afterwards, and every other lookup is as
    before. *)
Theorem created_user_is_stored
    (s : Store) (client : Client.t) (other : option string)
    (insertUser : Insert.t) (fx : Effects) :
  let stored (result : Outcome User * Store) :=
    forall user s',
      result = (Ok user, s') ->
      id user = uuid fx /\
      getUserById (uuid fx) s' = (Ok (Some user), s') /\
      forall k, k <> uuid fx ->
                getUserById k s' = (Ok (JsMap.get s k), s') in
  stored (createClientWithPayment client other fx s) /\
  stored (createClient client other fx s) /\
  stored (createUser insertUser fx s).
Proof.
  intros stored.
  assert (H : forall user, id user = uuid fx ->
            stored (Ok user, JsMap.set (uuid fx) user s)).
  { intros user Hid u s' Heq. injection Heq as <- <-.
    split; [exact Hid|]. unfold getUserById, bind, users, ret. split.
    - rewrite JsMap_get_set_same. reflexivity.
    - intros k Hk. rewrite (JsMap_get_set_other User s (uuid fx) k user Hk).
      reflexivity. }
  split; [|split].
  - rewrite createClientWithPayment_run. apply H. reflexivity.
  - rewrite createClient_run. destruct (directPosition s _ _).
    + apply H. reflexivity.
    + intros user s' Heq. discriminate.
  - apply H. reflexivity.
Qed.

Lemma find_unique (l : list User) (u : User) :
  NoDup (map username l) -> In u l ->
  find (fun v => username v =? username u) l = Some u.
Proof.
  induction l as [|v l IH]; intros Hnd Hin; [contradiction|].
  simpl in *. inversion Hnd as [|? ? Hnotin Hnd']; subst.
  destruct Hin as [->|Hin]; [rewrite String.eqb_refl; reflexivity|].
  destruct (String.eqb_spec (username v) (username u)) as [He|_].
  - exfalso. apply Hnotin. rewrite He. apply in_map. exact Hin.
  - apply IH; assumption.
Qed.

Lemma validateUser_run (bcrypt_compare : string -> string -> bool)
    (s : Store) (name plain wanted : string) :
  validateUser bcrypt_compare name plain wanted s
  = (Ok match find (fun v => username v =? name) (JsMap.values s) with
        | Some v => if negb (role v =? wanted) then None
                    else if bcrypt_compare plain (password v)
                         then Some v else None
        | None => None
        end, s).
Proof.
  unfold validateUser.
  erewrite bind_run
    by (unfold getUserByUsername, bind, users, ret; reflexivity).
  destruct (find _ (JsMap.values s)) as [v|]; [|reflexivity].
  destruct (negb (role v =? wanted)); reflexivity.
Qed.

(** X12. On every store [validateUser] never writes and never throws, and a
    user it returns is stored under the given username, has the requested
    role, and has a digest that [bcrypt.compare] accepts for the password.
    With unique usernames it returns every such user. *)
Theorem validateUser_spec (bcrypt_compare : string -> string -> bool)
    (s : Store) (name plain wanted : string) :
  (exists r, validateUser bcrypt_compare name plain wanted s = (Ok r, s)) /\
  (forall u s',
     validateUser bcrypt_compare name plain wanted s = (Ok (Some u), s') ->
     In u (JsMap.values s) /\ username u = name /\ role u = wanted /\
     bcrypt_compare plain (password u) = true) /\
  (usernames_unique s ->
   forall u,
     In u (JsMap.values s) -> username u = name -> role u = wanted ->
     bcrypt_compare plain (password u) = true ->
     validateUser bcrypt_compare name plain wanted s = (Ok (Some u), s)).
Proof.
  rewrite validateUser_run. split; [eexists; reflexivity|]. split.
  - intros u s' H. injection H as H _.
    destruct (find _ (JsMap.values s)) as [v|] eqn:Ef; [|discriminate].
    apply find_some in Ef. destruct Ef as [Hin Hname].
    apply String.eqb_eq in Hname.
    destruct (String.eqb_spec (role v) wanted) as [Hr|]; [|discriminate].
    simpl in H. destruct (bcrypt_compare plain (password v)) eqn:Ec;
      [|discriminate].
    injection H as <-. auto.
  - intros Hu u Hin <- <- Hc.
    rewrite (find_unique (JsMap.values s) u Hu Hin), String.eqb_refl. simpl.
    rewrite Hc. reflexivity.
Qed.

Lemma validateUser_spec_witness :
  let s := exec (createUser (Insert.mk "eve" "pw" None None None None)
                   (mkEffects "E" "#pw" 1)) initialStore in
  (exists u, validateUser toyCompare "eve" "pw" "client" s = (Ok (Some u), s)) /\
  validateUser toyCompare "eve" "pw" "admin" s = (Ok None, s) /\
  validateUser toyCompare "eve" "no" "client" s = (Ok None, s).
Proof.
  intros s.
  assert (Hu : usernames_unique s).
  { unfold usernames_unique. simpl. repeat constructor; simpl;
      intuition discriminate. }
  split; [|split; reflexivity].
  eexists.
  apply (proj2 (proj2 (validateUser_spec toyCompare s "eve" "pw" "client")) Hu);
    [right; left; reflexivity|reflexivity|reflexivity|reflexivity].
Defined.

(** X13. [POST /api/auth/login] never writes to the store. When it answers
    200 the session holds a stored user with the submitted username, whose
    password [bcrypt.compare] accepted, and the requested role; otherwise
    the session is as it was. A session opened with the role [client] is
    refused (403, store untouched) by both administrator routes that create
    clients. *)
Theorem login_session (bcrypt_compare : string -> string -> bool)
    (s : Store) (session : Session.t) (credentials : Login.t) :
  exists resp session',
    postLogin bcrypt_compare session credentials s = (Ok (resp, session'), s) /\
    ((status resp = 200 /\
      Session.role session' = Some (roleName (Login.role credentials)) /\
      (exists u, In u (JsMap.values s) /\
                 Session.userId session' = Some (id u) /\
                 username u = Login.username credentials /\
                 bcrypt_compare (Login.password credentials) (password u)
                   = true) /\
      (Login.role credentials = ClientRole ->
       forall data paymentData fx,
         postClients session' data fx s
           = (Ok (mkResponse 403 (JMessage "Admin access required")), s) /\
         postCreateWithPayment session' paymentData fx s
           = (Ok (mkResponse 403 (JMessage "Admin access required")), s))) \/
     (status resp = 401 /\ session' = session)).
Proof.
  unfold postLogin, try_catch.
  erewrite bind_run by apply validateUser_run.
  destruct (find _ (JsMap.values s)) as [v|] eqn:Ef.
  2:{ eexists. eexists. split; [reflexivity|]. right. split; reflexivity. }
  apply find_some in Ef. destruct Ef as [Hin Hname].
  apply String.eqb_eq in Hname.
  destruct (String.eqb_spec (role v) (roleName (Login.role credentials)))
    as [Hr|]; cbn [negb].
  2:{ eexists. eexists. split; [reflexivity|]. right. split; reflexivity. }
  destruct (bcrypt_compare (Login.password credentials) (password v)) eqn:Ec.
  2:{ eexists. eexists. split; [reflexivity|]. right. split; reflexivity. }
  eexists. eexists. split; [reflexivity|]. left.
  split; [reflexivity|]. split; [simpl; congruence|].
  split; [exists v; auto|].
  intros Hclient data paymentData fx.
  unfold postClients, postCreateWithPayment, requireAdmin. simpl.
  rewrite Hr, Hclient. simpl. rewrite andb_false_r. split; reflexivity.
Qed.

(** X14. [initializeAdminUser] leaves a store that has an administrator:
    untouched if it had one, with the new administrator stored under the
    drawn identifier otherwise. Running it again changes nothing. *)
Theorem initializeAdminUser_ensures_admin (s : Store) (fx fx' : Effects) :
  let s' := exec (initializeAdminUser fx) s in
  (exists u, In u (JsMap.values s') /\ role u = "admin") /\
  ((exists u, In u (JsMap.values s) /\ role u = "admin") -> s' = s) /\
  ((forall u, In u (JsMap.values s) -> role u <> "admin") ->
   exists admin, s' = JsMap.set (uuid fx) admin s /\
                 id admin = uuid fx /\ role admin = "admin" /\
                 username admin = "admin" /\ parentId admin = None /\
                 position admin = None) /\
  exec (initializeAdminUser fx') s' = s'.
Proof.
  assert (Hrun : forall t f,
            exec (initializeAdminUser f) t
            = if existsb (fun user => role user =? "admin") (JsMap.values t)
              then t
              else JsMap.set (uuid f)
                     (mkUser (uuid f) (Some "System Admin") "admin"
                        (hashedPassword f) (Some "admin@nappinghand.com")
                        None "admin" None None None (now f)) t).
  { intros t f. unfold exec, initializeAdminUser, bind, users, users_set, ret.
    simpl. destruct (existsb _ (JsMap.values t)); reflexivity. }
  assert (Hhas : existsb (fun user => role user =? "admin")
                   (JsMap.values (exec (initializeAdminUser fx) s)) = true).
  { rewrite Hrun.
    destruct (existsb _ (JsMap.values s)) eqn:E; [exact E|].
    apply existsb_exists. eexists. split; [apply in_values_set|reflexivity]. }
  intros s'. split; [|split; [|split]].
  - apply existsb_exists in Hhas. destruct Hhas as (u & Hu & Hr).
    exists u. split; [exact Hu|]. apply String.eqb_eq. exact Hr.
  - intros (u & Hu & Hr). unfold s'. rewrite Hrun.
    replace (existsb _ (JsMap.values s)) with true; [reflexivity|].
    symmetry. apply existsb_exists. exists u. split; [exact Hu|].
    rewrite Hr. reflexivity.
  - intros Hnone. unfold s'. rewrite Hrun.
    destruct (existsb _ (JsMap.values s)) eqn:E.
    + apply existsb_exists in E. destruct E as (u & Hu & Hr).
      apply String.eqb_eq in Hr. destruct (Hnone u Hu Hr).
    + eexists. split; [reflexivity|]. repeat split.
  - unfold s'. rewrite (Hrun (exec (initializeAdminUser fx) s) fx'), Hhas.
    reflexivity.
Qed.

Lemma strict_eq_exclusive (a : option string) (x y : string) :
  x <> y -> strict_eq a x = true -> strict_eq a y = false.
Proof.
  intros Hne Hx. apply strict_eq_true in Hx. subst a. simpl.
  destruct (String.eqb_spec x y); [contradiction|reflexivity].
Qed.

Lemma package_counts_le (l : list User) :
  List.length (filter (fun c => strict_eq (package c) "Silver") l) +
  List.length (filter (fun c => strict_eq (package c) "Gold") l) +
  List.length (filter (fun c => strict_eq (package c) "Diamond") l)
  <= List.length l.
Proof.
  induction l as [|c l IH]; simpl; [lia|].
  destruct (strict_eq (package c) "Silver") eqn:ES.
  - rewrite (strict_eq_exclusive (package c) "Silver" "Gold"),
            (strict_eq_exclusive (package c) "Silver" "Diamond");
      try exact ES; try discriminate. simpl. lia.
  - destruct (strict_eq (package c) "Gold") eqn:EG.
    + rewrite (strict_eq_exclusive (package c) "Gold" "Diamond");
        try exact EG; try discriminate. simpl. lia.
    + destruct (strict_eq (package c) "Diamond"); simpl; lia.
Qed.

(** X15. [getClientStats] leaves the store alone and its three package
    counts never add up to more than [total]. Storing a new client through
    [createClientWithPayment] under a fresh identifier raises [total] and
    the count of the client's package by one and leaves the other two
    counts as they were. *)
Theorem getClientStats_counts (s : Store) (client : Client.t)
    (adminId : option string) (fx : Effects) :
  JsMap.get s (uuid fx) = None ->
  exists before after,
    getClientStats s = (Ok before, s) /\
    getClientStats (exec (createClientWithPayment client adminId fx) s)
      = (Ok after, exec (createClientWithPayment client adminId fx) s) /\
    silver before + gold before + diamond before <= total before /\
    total after = S (total before) /\
    silver after = silver before +
      match Client.package client with Silver => 1 | _ => 0 end /\
    gold after = gold before +
      match Client.package client with Gold => 1 | _ => 0 end /\
    diamond after = diamond before +
      match Client.package client with Diamond => 1 | _ => 0 end.
Proof.
  intros Hfresh. eexists. eexists.
  split; [reflexivity|]. split; [reflexivity|].
  unfold exec. rewrite createClientWithPayment_run. cbn [snd].
  rewrite (JsMap_set_fresh User s (uuid fx) _ Hfresh).
  cbn [total silver gold diamond].
  change (filter (fun user => role user =? "client") (JsMap.values ?x))
    with (clientsOf x).
  split; [apply package_counts_le|].
  rewrite clientsOf_append. cbn [newClient role String.eqb Ascii.eqb Bool.eqb].
  rewrite !filter_app, !length_app. cbn [newClient package filter].
  destruct (Client.package client); simpl; lia.
Qed.

Lemma getClientStats_counts_witness :
  exists before after,
    getClientStats scenarioStore = (Ok before, scenarioStore) /\
    getClientStats
      (exec (createClientWithPayment (request "n" (Some "A") None) (Some "A")
               (drawn "N")) scenarioStore)
      = (Ok after,
         exec (createClientWithPayment (request "n" (Some "A") None) (Some "A")
                 (drawn "N")) scenarioStore) /\
    total before = 6 /\ total after = S (total before) /\
    silver after = silver before + 1 /\ gold after = gold before.
Proof.
  destruct (getClientStats_counts scenarioStore (request "n" (Some "A") None)
              (Some "A") (drawn "N") eq_refl)
    as (before & after & H1 & H2 & _ & H4 & H5 & H6 & _).
  exists before, after. split; [exact H1|]. split; [exact H2|].
  simpl in H5, H6. rewrite Nat.add_0_r in H6.
  split; [|split; [exact H4|split; assumption]].
  vm_compute in H1. injection H1 as <-. reflexivity.
Defined.

(* ------------------------------------------------------------------ *)
(** ** Further properties: plans *)

Lemma JsMap_keys_set_present (V : Type) (m : JsMap.t V) (k : string) (v e : V) :
  JsMap.get m k = Some e -> JsMap.keys (JsMap.set k v m) = JsMap.keys m.
Proof.
  unfold JsMap.keys. induction m as [|[k' v'] m IH]; simpl; [discriminate|].
  destruct (String.eqb_spec k' k) as [->|]; simpl; [reflexivity|].
  intros H. rewrite (IH H). reflexivity.
Qed.

Lemma JsMap_set_same (V : Type) (m : JsMap.t V) (k : string) (e : V) :
  JsMap.get m k = Some e -> JsMap.set k e m = m.
Proof.
  induction m as [|[k' v'] m IH]; simpl; [discriminate|].
  destruct (String.eqb_spec k' k) as [->|].
  - intros H. injection H as ->. reflexivity.
  - intros H. rewrite (IH H). reflexivity.
Qed.

Lemma JsMap_get_absent (V : Type) (m : JsMap.t V) (k : string) :
  ~ In k (JsMap.keys m) -> JsMap.get m k = None.
Proof.
  unfold JsMap.keys. induction m as [|[k' v'] m IH]; simpl; [reflexivity|].
  intros H. destruct (String.eqb_spec k' k) as [->|]; [tauto|].
  apply IH. tauto.
Qed.

Lemma JsMap_get_remove_other (V : Type) (m : JsMap.t V) (k x : string) :
  x <> k -> JsMap.get (JsMap_remove k m) x = JsMap.get m x.
Proof.
  intros Hne. induction m as [|[k' v'] m IH]; simpl; [reflexivity|].
  destruct (String.eqb_spec k' k) as [->|]; simpl.
  - destruct (String.eqb_spec k x); [congruence|reflexivity].
  - destruct (k' =? x); [reflexivity|exact IH].
Qed.

Lemma JsMap_remove_absent (V : Type) (m : JsMap.t V) (k : string) :
  JsMap.get m k = None -> JsMap_remove k m = m.
Proof.
  induction m as [|[k' v'] m IH]; simpl; [reflexivity|].
  destruct (k' =? k); [discriminate|]. intros H. rewrite (IH H). reflexivity.
Qed.

Lemma JsMap_keys_remove (V : Type) (m : JsMap.t V) (k x : string) :
  In x (JsMap.keys (JsMap_remove k m)) -> In x (JsMap.keys m).
Proof.
  unfold JsMap.keys. induction m as [|[k' v'] m IH]; simpl; [tauto|].
  destruct (k' =? k); simpl; [tauto|]. intros [H|H]; [tauto|right; exact (IH H)].
Qed.

Lemma JsMap_remove_NoDup (V : Type) (m : JsMap.t V) (k : string) :
  NoDup (JsMap.keys m) ->
  NoDup (JsMap.keys (JsMap_remove k m)) /\
  JsMap.get (JsMap_remove k m) k = None.
Proof.
  unfold JsMap.keys. induction m as [|[k' v'] m IH]; simpl; intros Hnd.
  - split; [constructor|reflexivity].
  - inversion Hnd as [|? ? Hnotin Hnd']; subst.
    destruct (String.eqb_spec k' k) as [->|Hne]; simpl.
    + split; [exact Hnd'|]. apply JsMap_get_absent. exact Hnotin.
    + destruct (IH Hnd') as [H1 H2]. split.
      * constructor; [|exact H1]. intros Hin. apply Hnotin.
        exact (JsMap_keys_remove V m k k' Hin).
      * destruct (String.eqb_spec k' k); [contradiction|exact H2].
Qed.

Lemma JsMap_remove_append (V : Type) (m : JsMap.t V) (k : string) (v : V) :
  JsMap.get m k = None -> JsMap_remove k (m ++ [(k, v)]) = m.
Proof.
  induction m as [|[k' v'] m IH]; simpl.
  - rewrite String.eqb_refl. reflexivity.
  - destruct (k' =? k); [discriminate|]. intros H. rewrite (IH H). reflexivity.
Qed.

(** X16. [createPlan] stores the plan it returns under the drawn identifier,
    where [getPlanById] finds it; other plans are untouched; a missing or
    empty [status] becomes "active"; under a fresh identifier the plan comes
    last in [getAllPlans], and [deletePlan] of that identifier restores the
    plans as they were. *)
Theorem createPlan_spec (plans : Plans) (planData : InsertPlan.t) (fx : Effects) :
  let plan := fst (createPlan planData fx plans) in
  let plans' := snd (createPlan planData fx plans) in
  getPlanById (uuid fx) plans' = Some plan /\
  (forall k, k <> uuid fx -> getPlanById k plans' = getPlanById k plans) /\
  Plan.id plan = uuid fx /\
  Plan.name plan = InsertPlan.name planData /\
  (truthy (InsertPlan.status planData) = false -> Plan.status plan = "active") /\
  (forall st, InsertPlan.status planData = Some st -> st <> "" ->
              Plan.status plan = st) /\
  (getPlanById (uuid fx) plans = None ->
   getAllPlans plans' = getAllPlans plans ++ [plan] /\
   deletePlan (uuid fx) plans' = (true, plans)).
Proof.
  intros plan plans'. unfold getPlanById, getAllPlans.
  split; [apply JsMap_get_set_same|].
  split; [intros k Hk; apply JsMap_get_set_other; exact Hk|].
  split; [reflexivity|]. split; [reflexivity|].
  split; [|split].
  - intros Hf. unfold plan. simpl. unfold js_or. rewrite Hf. reflexivity.
  - intros st Hst Hne. unfold plan. simpl. rewrite Hst. unfold js_or.
    rewrite (truthy_nonempty st Hne). reflexivity.
  - intros Hfresh. unfold plans', plan, createPlan, deletePlan, JsMap_has.
    cbn [fst snd]. rewrite JsMap_get_set_same.
    rewrite (JsMap_set_fresh Plan.t plans (uuid fx) _ Hfresh).
    unfold JsMap.values. rewrite map_app. split; [reflexivity|].
    rewrite (JsMap_remove_append Plan.t plans (uuid fx) _ Hfresh). reflexivity.
Qed.

(** X17. [updatePlan] on an identifier that is not stored returns [null] and
    changes nothing. On a stored one it returns the updated plan, which
    keeps its [id] and [createdAt] and takes every given field; the plan
    stays at its place in the map, the other plans are untouched, and an
    update that gives no field leaves the map as it was. *)
Theorem updatePlan_spec (plans : Plans) (k : string) (planData : UpdatePlan.t) :
  match getPlanById k plans with
  | None => updatePlan k planData plans = (None, plans)
  | Some existing =>
      exists updated plans',
        updatePlan k planData plans = (Some updated, plans') /\
        Plan.id updated = Plan.id existing /\
        Plan.createdAt updated = Plan.createdAt existing /\
        (forall v, UpdatePlan.status planData = Some v ->
                   Plan.status updated = v) /\
        (UpdatePlan.status planData = None ->
         Plan.status updated = Plan.status existing) /\
        JsMap.keys plans' = JsMap.keys plans /\
        getPlanById k plans' = Some updated /\
        (forall k', k' <> k -> getPlanById k' plans' = getPlanById k' plans) /\
        (planData = UpdatePlan.mk None None None None None None ->
         updated = existing /\ plans' = plans)
  end.
Proof.
  unfold getPlanById, updatePlan.
  destruct (JsMap.get plans k) as [existing|] eqn:E; [|reflexivity].
  eexists. eexists. split; [reflexivity|].
  split; [reflexivity|]. split; [reflexivity|].
  split; [intros v Hv; simpl; rewrite Hv; reflexivity|].
  split; [intros Hv; simpl; rewrite Hv; reflexivity|].
  split; [apply (JsMap_keys_set_present Plan.t plans k _ existing E)|].
  split; [apply JsMap_get_set_same|].
  split; [intros k' Hk'; apply JsMap_get_set_other; exact Hk'|].
  intros ->. simpl. destruct existing; simpl.
  split; [reflexivity|]. apply JsMap_set_same. exact E.
Qed.

(** X19. With the keys of the map distinct, [deletePlan] reports whether the
    identifier was stored, leaves no plan under it, keeps the other plans,
    and changes nothing when the identifier was not stored. *)
Theorem deletePlan_spec (plans : Plans) (k : string) :
  NoDup (JsMap.keys plans) ->
  let existed := fst (deletePlan k plans) in
  let plans' := snd (deletePlan k plans) in
  (existed = true <-> exists plan, getPlanById k plans = Some plan) /\
  getPlanById k plans' = None /\
  (forall k', k' <> k -> getPlanById k' plans' = getPlanById k' plans) /\
  (existed = false -> plans' = plans) /\
  NoDup (JsMap.keys plans').
Proof.
  intros Hnd existed plans'.
  unfold existed, plans', deletePlan, getPlanById, JsMap_has. cbn [fst snd].
  destruct (JsMap_remove_NoDup Plan.t plans k Hnd) as [H1 H2].
  split; [|split; [exact H2|split; [|split; [|exact H1]]]].
  - destruct (JsMap.get plans k) as [plan|].
    + split; [intros _; exists plan; reflexivity|reflexivity].
    + split; [discriminate|]. intros [plan H]. discriminate.
  - intros k' Hk'. apply JsMap_get_remove_other. exact Hk'.
  - destruct (JsMap.get plans k) eqn:E; [discriminate|].
    intros _. apply JsMap_remove_absent. exact E.
Qed.

Lemma deletePlan_spec_witness :
  map Plan.name (getAllPlans defaultPlanStore) = ["Silver"; "Gold"; "Diamond"] /\
  fst (deletePlan "G" defaultPlanStore) = true /\
  map Plan.name (getAllPlans (snd (deletePlan "G" defaultPlanStore)))
    = ["Silver"; "Diamond"] /\
  getPlanById "G" (snd (deletePlan "G" defaultPlanStore)) = None /\
  NoDup (JsMap.keys (snd (deletePlan "G" defaultPlanStore))).
Proof.
  assert (Hnd : NoDup (JsMap.keys defaultPlanStore)).
  { vm_compute. repeat constructor; simpl; intuition discriminate. }
  destruct (deletePlan_spec defaultPlanStore "G" Hnd) as (_ & H2 & _ & _ & H5).
  split; [reflexivity|]. split; [reflexivity|]. split; [reflexivity|].
  split; assumption.
Defined.
